(** * newsblur_cleaner: the story triage pipeline

    A shallow embedding of [newsblur_cleaner.py]: the title normaliser
    ([Story.NormalizeTitle]), the story accessors, the page-by-page fetch
    loop, the per-story purge rules of [main] and the final bulk
    mark-as-read call, followed by the properties of the design document
    that were checked against them. *)

From Stdlib Require Import ZArith NArith Ascii String List Lia Bool Sorted.
From stdpp Require Import base gmap sets list strings.

Local Open Scope Z_scope.

(* [set_solver] clears hypotheses that a section does not always have. *)
#[local] Set Warnings "-clear-no-such-hyp".

(** ** Python strings

    A Python [str] is modelled by [string]: every [ascii] stands for one
    code point below U+0100 (ASCII and the Latin-1 supplement). Code points
    from U+0100 on are outside this model: the module [Raw] has them, and
    [RawFacts.normalize_code_points] shows that the normaliser of this
    module is the one of [Raw] on the strings that both have. *)

Module Str.

(** [string.punctuation], the 32 ASCII punctuation characters. The double
    quote (code 34) is spelled by its code. *)
Definition punctuation : string :=
  String "!" (String (ascii_of_nat 34) "#$%&'()*+,-./:;<=>?@[\]^_`{|}~").

(** [c in s] for a one-character [c]. *)
Fixpoint mem (c : ascii) (s : string) : bool :=
  match s with
  | EmptyString => false
  | String c' s' => if Ascii.eqb c c' then true else mem c s'
  end.

(** [str.lower] on one code point below U+0100: the letters A-Z and the
    Latin-1 capitals U+00C0-U+00DE (the multiplication sign U+00D7 apart)
    move up by 32; every other code point is its own lowercase. *)
Definition lower_char (c : ascii) : ascii :=
  let n := N_of_ascii c in
  if ((65 <=? n) && (n <=? 90))%N then ascii_of_N (n + 32)
  else if ((192 <=? n) && (n <=? 222) && negb (n =? 215))%N
       then ascii_of_N (n + 32)
       else c.

(** [s.lower()]. *)
Fixpoint lower (s : string) : string :=
  match s with
  | EmptyString => EmptyString
  | String c s' => String (lower_char c) (lower s')
  end.

(** [s.translate(t)] for the table [t] that [str.maketrans] builds from two
    empty strings and [del]: it maps every character of [del] to [None],
    so [translate] drops exactly those. *)
Fixpoint translate_delete (del : string) (s : string) : string :=
  match s with
  | EmptyString => EmptyString
  | String c s' =>
      if mem c del then translate_delete del s'
      else String c (translate_delete del s')
  end.

(** The body of [Story.NormalizeTitle] on the title string. *)
Definition normalize (title : string) : string :=
  let norm_title := lower title in
  let norm_title := translate_delete punctuation norm_title in
  norm_title.

(** The ASCII punctuation class by code, as the design document words it. *)
Definition is_ascii_punctuation (c : ascii) : bool :=
  let n := N_of_ascii c in
  (((33 <=? n) && (n <=? 47)) || ((58 <=? n) && (n <=? 64))
   || ((91 <=? n) && (n <=? 96)) || ((123 <=? n) && (n <=? 126)))%N.

(** The design document's wording of the normaliser: lowercase, then
    remove every ASCII punctuation character; nothing else. *)
Fixpoint remove_ascii_punctuation (s : string) : string :=
  match s with
  | EmptyString => EmptyString
  | String c s' =>
      if is_ascii_punctuation c then remove_ascii_punctuation s'
      else String c (remove_ascii_punctuation s')
  end.

End Str.

(** ** Stories and feeds *)

(** What [story_data.get("story_timestamp", None)] can hold: nothing, a
    JSON integer or a JSON string. *)
Inductive PyVal :=
  | PyNone
  | PyInt (z : Z)
  | PyStr (s : string).

(** Python truthiness of such a value. *)
Definition truthy (v : PyVal) : bool :=
  match v with
  | PyNone => false
  | PyInt z => negb (z =? 0)
  | PyStr s => match s with EmptyString => false | _ => true end
  end.

(** A [Story]: its [story_id] and the entries of [story_data] the
    program reads, each as [dict.get] returns it ([None] when the key is
    not there, except [read_status] whose default is [0]). *)
Record Story := mkStory {
  story_id : string;
  story_title : option string;
  story_permalink : option string;
  story_hash : option string;
  story_timestamp : PyVal;
  read_status : Z;
}.

(** [Story.title]: [story_data.get("story_title", self.story_id)], for a
    story whose id and title, if it has one, are strings. [Raw.title] is
    the accessor on any JSON value. *)
Definition title (s : Story) : string :=
  match story_title s with
  | Some t => t
  | None => story_id s
  end.

(** [Story.permalink]; [None] is Python's [None]. *)
Definition permalink (s : Story) : option string := story_permalink s.

(** [Story.hash]. *)
Definition hash (s : Story) : option string := story_hash s.

(** [Story.unread]: [not story_data.get("read_status", 0)]. *)
Definition unread (s : Story) : bool := read_status s =? 0.

(** [Story.NormalizeTitle] on such a story; [Raw.NormalizeTitle] is the
    method on any story. *)
Definition NormalizeTitle (s : Story) : string := Str.normalize (title s).

(** A [Feed]: its id and the two entries of [feed_data] that are read. *)
Record Feed := mkFeed {
  feed_id : string;
  feed_title : option string;
  nt : Z;
}.

(** [Feed.unread_count]: [feed_data.get("nt", 0)]. *)
Definition unread_count (f : Feed) : Z := nt f.


(** [Feed.title]: [feed_data.get("feed_title", self.feed_id)]. *)
Definition Feed_title (f : Feed) : string :=
  match feed_title f with
  | Some t => t
  | None => feed_id f
  end.

(** ** Effects

    The program reads the clock, calls the language detector and talks to
    the NewsBlur server. These are the environment of a run. A computation
    transforms a [World] (how often the clock and the detector were
    consulted, and the requests sent so far) and ends in a value, in an
    exception, or (a [while] loop only) out of fuel. *)

(** Exceptions, named by the call that raises them. *)
Inductive exn :=
  | LangDetectException   (* langdetect.detect *)
  | BadTimestamp          (* float(...) or datetime.fromtimestamp(...) *)
  | DateOverflow          (* timedelta(days=...) or datetime - timedelta *)
  | CompareWithNone       (* datetime < None *)
  | RequestFailed.        (* NewsBlurClient.Request *)

Inductive result (A : Type) :=
  | Ok (a : A)
  | Error (e : exn).
Arguments Ok {A} a.
Arguments Error {A} e.

Inductive outcome (A : Type) :=
  | Done (a : A)
  | Raised (e : exn)
  | OutOfFuel.
Arguments Done {A} a.
Arguments Raised {A} e.
Arguments OutOfFuel {A}.

(** The requests [NewsBlurClient] sends. *)
Inductive Request :=
  | Login
  | GetFeedsRequest
  | GetFeedPage (feed : string) (page : nat)
  | MarkStoriesAsReadRequest (story_hash : list (option string)).

Record World := mkWorld {
  clock_reads : nat;
  detect_calls : nat;
  requests : list Request;
}.

(** An instant is a number of microseconds since the epoch (the
    resolution of [datetime]); all instants are in UTC. *)
Record Env := mkEnv {
  (** the k-th reading of [datetime.datetime.now(datetime.timezone.utc)] *)
  clock : nat -> Z;
  (** the k-th call of [langdetect.detect], on the given text *)
  detect : nat -> string -> result string;
  (** the instant [datetime.fromtimestamp(float(s), tz=utc)] denotes for a
      string [s], or the exception of [float] or [fromtimestamp] *)
  instant_of_str : string -> result Z;
  (** the answer to the login request *)
  login_response : result unit;
  (** the feeds of the answer to [/reader/feeds], in the answer's order *)
  feeds_response : result (list Feed);
  (** the stories of the answer to [/reader/feed/<id>] for a page *)
  page_response : string -> nat -> result (list Story);
  (** the answer to [/reader/mark_story_hashes_as_read] *)
  mark_response : list (option string) -> result unit;
}.

Definition M (A : Type) : Type := World -> World * outcome A.

Definition ret {A} (a : A) : M A := fun w => (w, Done a).

Definition raise {A} (e : exn) : M A := fun w => (w, Raised e).

Definition out_of_fuel {A} : M A := fun w => (w, OutOfFuel).

Definition bind {A B} (m : M A) (k : A -> M B) : M B :=
  fun w =>
    match m w with
    | (w', Done a) => k a w'
    | (w', Raised e) => (w', Raised e)
    | (w', OutOfFuel) => (w', OutOfFuel)
    end.

Notation "x <- m ;; k" := (bind m (fun x => k))
  (at level 100, m at next level, right associativity).

Definition lift {A} (r : result A) : M A :=
  match r with
  | Ok a => ret a
  | Error e => raise e
  end.

(** ** Dates *)

Definition MICROSECONDS_PER_SECOND : Z := 1000000.
Definition MICROSECONDS_PER_DAY : Z := 86400 * MICROSECONDS_PER_SECOND.

(** [datetime.min] and [datetime.max] as instants: 0001-01-01T00:00:00 and
    9999-12-31T23:59:59.999999. *)
Definition DATETIME_MIN : Z := -62135596800000000.
Definition DATETIME_MAX : Z := 253402300799999999.

Definition in_datetime_range (t : Z) : bool :=
  (DATETIME_MIN <=? t) && (t <=? DATETIME_MAX).

(** [datetime.timedelta(days=d)], in microseconds: the number of days of a
    [timedelta] is at most 999999999 in absolute value. *)
Definition timedelta_days (d : Z) : result Z :=
  if (-999999999 <=? d) && (d <=? 999999999)
  then Ok (d * MICROSECONDS_PER_DAY)
  else Error DateOverflow.

(** [t - delta] on a [datetime]: the difference has to be a [datetime]. *)
Definition datetime_sub (t delta : Z) : result Z :=
  if in_datetime_range (t - delta) then Ok (t - delta) else Error DateOverflow.

(** [datetime.fromtimestamp(float(z), tz=utc)] for an integer [z] of
    seconds. In the range of [datetime] the conversion to [float] is exact. *)
Definition fromtimestamp_int (z : Z) : result Z :=
  if in_datetime_range (z * MICROSECONDS_PER_SECOND)
  then Ok (z * MICROSECONDS_PER_SECOND)
  else Error BadTimestamp.

(** The rules of [main]'s loop, one per [continue], in source order. *)
Inductive Rule :=
  | DupTitle
  | DupPermalink
  | AgeCutoff
  | FeedCap
  | Language.

(** How an iteration of the loop ends: at the [continue] of a rule, or at
    the end of the body. *)
Inductive Verdict :=
  | Purge (r : Rule)
  | Keep.

#[global] Instance Rule_eq_dec : EqDecision Rule.
Proof. solve_decision. Defined.

#[global] Instance Verdict_eq_dec : EqDecision Verdict.
Proof. solve_decision. Defined.

(** The parsed command line ([ctx]); [None] is an option that was not
    given. *)
Record Config := mkConfig {
  deduplicate : bool;
  max_days_old : option Z;
  max_stories_per_feed : option Z;
  language : option (list string);
}.

(** Truthiness of an optional integer: [None] and [0] are false. *)
Definition int_truthy (o : option Z) : bool :=
  match o with
  | Some z => negb (z =? 0)
  | None => false
  end.

(** [o and o > 0] for an optional integer. *)
Definition positive_opt (o : option Z) : bool :=
  match o with
  | Some z => negb (z =? 0) && (0 <? z)
  | None => false
  end.

(** [titles_seen] and [permalinks_seen]. *)
Record Dedup := mkDedup {
  titles_seen : gset string;
  permalinks_seen : gset (option string);
}.

(** [set(ctx.language if ctx.language else [])]. *)
Definition languages_of (cfg : Config) : gset string :=
  match language cfg with
  | Some (l :: ls) => list_to_set (l :: ls)
  | _ => ∅
  end.

(** ** The program *)

Section Program.

Variable env : Env.
Variable ctx : Config.

(** [datetime.datetime.now(datetime.timezone.utc)]. *)
Definition now : M Z :=
  fun w =>
    (mkWorld (S (clock_reads w)) (detect_calls w) (requests w),
     Done (clock env (clock_reads w))).

(** [NewsBlurClient.Request]: the request is sent, and a status other
    than 200 or a result other than "ok" raises. *)
Definition Request_ {A} (r : Request) (response : result A) : M A :=
  fun w =>
    lift response
      (mkWorld (clock_reads w) (detect_calls w) (requests w ++ [r])).

(** [Story.timestamp]. *)
Definition timestamp (story : Story) : M Z :=
  let story_timestamp := story_timestamp story in
  if truthy story_timestamp then
    match story_timestamp with
    | PyInt z => lift (fromtimestamp_int z)
    | PyStr s => lift (instant_of_str env s)
    | PyNone => now
    end
  else now.

(** [Story.GetLanguage]: [langdetect.detect(self.title)]. *)
Definition GetLanguage (story : Story) : M string :=
  fun w =>
    lift (detect env (detect_calls w) (title story))
      (mkWorld (clock_reads w) (S (detect_calls w)) (requests w)).

(** [Feed.GetStories(page=page, oldest_first=False)]; [unread_only] has
    its default [True]. ([self.stories], which nothing reads, is left
    out.) *)
Definition GetStories (feed : Feed) (page : nat) : M (list Story) :=
  new_stories <-
    Request_ (GetFeedPage (feed_id feed) page)
             (page_response env (feed_id feed) page) ;;
  ret (List.filter unread new_stories).

(** [NewsBlurClient.MarkStoriesAsRead]. *)
Definition MarkStoriesAsRead (stories : list Story) : M unit :=
  let data := List.map hash stories in
  Request_ (MarkStoriesAsReadRequest data) (mark_response env data).

(** [sorted(feeds, key=lambda f: f.title)]: a stable sort by title, strings
    compared code point by code point. *)
Definition title_le (f g : Feed) : bool :=
  match String.compare (Feed_title f) (Feed_title g) with
  | Gt => false
  | _ => true
  end.

Fixpoint insert_sorted (f : Feed) (l : list Feed) : list Feed :=
  match l with
  | [] => [f]
  | g :: l' => if title_le f g then f :: g :: l' else g :: insert_sorted f l'
  end.

Definition sorted_by_title (l : list Feed) : list Feed :=
  List.fold_right insert_sorted [] l.

(** [NewsBlurClient.GetFeeds], on a client that did not load the feeds
    yet. *)
Definition GetFeeds : M (list Feed) :=
  items <- Request_ GetFeedsRequest (feeds_response env) ;;
  ret (sorted_by_title items).

(** The cutoff of [main]:
[[
        cutoff = None
        if ctx.max_days_old:
            now = datetime.datetime.now(datetime.timezone.utc)
            cutoff = now - datetime.timedelta(days=ctx.max_days_old)
]] *)
Definition compute_cutoff : M (option Z) :=
  match max_days_old ctx with
  | Some d =>
      if int_truthy (Some d) then
        now_ <- now ;;
        delta <- lift (timedelta_days d) ;;
        cutoff <- lift (datetime_sub now_ delta) ;;
        ret (Some cutoff)
      else ret None
  | None => ret None
  end.

(** [story.timestamp < cutoff]. *)
Definition timestamp_before (story : Story) (cutoff : option Z) : M bool :=
  t <- timestamp story ;;
  match cutoff with
  | Some c => ret (t <? c)
  | None => raise CompareWithNone
  end.

(** The while loop of [main] for one feed:
[[
            while len(feed_stories) < feed.unread_count:
                new_stories = feed.GetStories(page=page, oldest_first=False)
                feed_stories.extend(new_stories)
                page += 1
]]
    One unit of fuel pays for one iteration. *)
Fixpoint fetch_loop (fuel : nat) (feed : Feed) (page : nat)
    (feed_stories : list Story) {struct fuel} : M (list Story) :=
  if Z.of_nat (length feed_stories) <? unread_count feed then
    match fuel with
    | O => out_of_fuel
    | S fuel' =>
        new_stories <- GetStories feed page ;;
        fetch_loop fuel' feed (S page) (feed_stories ++ new_stories)
    end
  else ret feed_stories.

(** The body of the loop over [enumerate(feed_stories)]. Each [continue]
    is a return with the rule's [Purge]; the end of the body returns
    [Keep]. The result carries [feed_stories_to_mark] and the two sets
    as the iteration leaves them. *)
Definition body (cutoff : option Z) (languages : gset string)
    (story_num : nat) (story : Story)
    (feed_stories_to_mark : list Story) (seen : Dedup)
  : M (Verdict * list Story * Dedup) :=
  let norm_title := NormalizeTitle story in
  let after_dedup : M (Verdict * list Story * Dedup) :=
    too_old <-
      (if positive_opt (max_days_old ctx)
       then timestamp_before story cutoff
       else ret false) ;;
    if too_old then
      ret (Purge AgeCutoff, feed_stories_to_mark ++ [story], seen)
    else if positive_opt (max_stories_per_feed ctx)
            && match max_stories_per_feed ctx with
               | Some m => m <=? Z.of_nat story_num
               | None => false
               end
    then ret (Purge FeedCap, feed_stories_to_mark ++ [story], seen)
    else
      foreign <-
        (if bool_decide (languages ≠ ∅)
         then lang <- GetLanguage story ;;
              ret (negb (bool_decide (lang ∈ languages)))
         else ret false) ;;
      if foreign then
        ret (Purge Language, feed_stories_to_mark ++ [story], seen)
      else if deduplicate ctx then
        ret (Keep, feed_stories_to_mark,
             mkDedup ({[norm_title]} ∪ titles_seen seen)
                     ({[permalink story]} ∪ permalinks_seen seen))
      else ret (Keep, feed_stories_to_mark, seen)
  in
  if deduplicate ctx then
    if bool_decide (norm_title ∈ titles_seen seen) then
      ret (Purge DupTitle, feed_stories_to_mark ++ [story], seen)
    else if bool_decide (permalink story ∈ permalinks_seen seen) then
      ret (Purge DupPermalink, feed_stories_to_mark ++ [story], seen)
    else after_dedup
  else after_dedup.

(** [for story_num, story in enumerate(feed_stories)], from position
    [story_num] on. *)
Fixpoint for_stories (cutoff : option Z) (languages : gset string)
    (story_num : nat) (feed_stories : list Story)
    (feed_stories_to_mark : list Story) (seen : Dedup)
  : M (list Story * Dedup) :=
  match feed_stories with
  | [] => ret (feed_stories_to_mark, seen)
  | story :: rest =>
      r <- body cutoff languages story_num story feed_stories_to_mark seen ;;
      for_stories cutoff languages (S story_num) rest r.1.2 r.2
  end.

(** One iteration of [for feed in feeds]. *)
Definition process_feed (fuel : nat) (cutoff : option Z)
    (languages : gset string) (feed : Feed)
    (all_stories_to_mark : list Story) (seen : Dedup)
  : M (list Story * Dedup) :=
  feed_stories <- fetch_loop fuel feed 1%nat [] ;;
  r <- for_stories cutoff languages 0 feed_stories [] seen ;;
  let feed_stories_to_mark := r.1 in
  match feed_stories_to_mark with
  | [] => ret (all_stories_to_mark, r.2)
  | _ :: _ => ret (all_stories_to_mark ++ feed_stories_to_mark, r.2)
  end.

(** [for feed in feeds]. *)
Fixpoint for_feeds (fuel : nat) (cutoff : option Z)
    (languages : gset string) (feeds : list Feed)
    (all_stories_to_mark : list Story) (seen : Dedup)
  : M (list Story * Dedup) :=
  match feeds with
  | [] => ret (all_stories_to_mark, seen)
  | feed :: rest =>
      r <- process_feed fuel cutoff languages feed all_stories_to_mark seen ;;
      for_feeds fuel cutoff languages rest r.1 r.2
  end.

(** The end of [main]: [if all_stories_to_mark: ... MarkStoriesAsRead]. *)
Definition mark_if_needed (all_stories_to_mark : list Story) : M unit :=
  match all_stories_to_mark with
  | [] => ret tt
  | _ :: _ => MarkStoriesAsRead all_stories_to_mark
  end.

(** [main], after the command line is parsed and up to the end of the
    loop over the feeds; every while loop may run for [fuel] iterations.
    The result is [all_stories_to_mark] with the two sets. *)
Definition main_feeds (fuel : nat) : M (list Story * Dedup) :=
  _ <- Request_ Login (login_response env) ;;
  all_feeds <- GetFeeds ;;
  let feeds := List.filter (fun f => 0 <? unread_count f) all_feeds in
  let titles_seen := ∅ in
  let permalinks_seen := ∅ in
  let all_stories_to_mark := [] in
  cutoff <- compute_cutoff ;;
  let languages := languages_of ctx in
  for_feeds fuel cutoff languages feeds all_stories_to_mark
    (mkDedup titles_seen permalinks_seen).

(** [main]: the feeds, then the bulk call. The result is
    [all_stories_to_mark]. *)
Definition main (fuel : nat) : M (list Story) :=
  r <- main_feeds fuel ;;
  _ <- mark_if_needed r.1 ;;
  ret r.1.

(** The purge list of each feed, in the order of the feeds (the loop over
    the feeds keeps only their concatenation). *)
Fixpoint purges_by_feed (fuel : nat) (cutoff : option Z)
    (languages : gset string) (feeds : list Feed) (seen : Dedup)
  : M (list (list Story)) :=
  match feeds with
  | [] => ret []
  | feed :: rest =>
      feed_stories <- fetch_loop fuel feed 1%nat [] ;;
      r <- for_stories cutoff languages 0 feed_stories [] seen ;;
      ls <- purges_by_feed fuel cutoff languages rest r.2 ;;
      ret (r.1 :: ls)
  end.

(** *** The design document's wording of the loop body

    A rule on its own: the condition under which the rule is enabled, and
    then its test. *)
Definition rule_matches (cutoff : option Z) (languages : gset string)
    (story_num : nat) (story : Story) (seen : Dedup) (r : Rule) : M bool :=
  match r with
  | DupTitle =>
      ret (deduplicate ctx
           && bool_decide (NormalizeTitle story ∈ titles_seen seen))
  | DupPermalink =>
      ret (deduplicate ctx
           && bool_decide (permalink story ∈ permalinks_seen seen))
  | AgeCutoff =>
      match max_days_old ctx with
      | Some d => if 0 <? d then timestamp_before story cutoff else ret false
      | None => ret false
      end
  | FeedCap =>
      match max_stories_per_feed ctx with
      | Some m => ret ((0 <? m) && (m <=? Z.of_nat story_num))
      | None => ret false
      end
  | Language =>
      if bool_decide (languages = ∅) then ret false
      else lang <- GetLanguage story ;;
           ret (bool_decide (lang ∉ languages))
  end.

(** A chain of rules: the first rule that matches decides, and the rules
    after it are not run. *)
Fixpoint first_match (cutoff : option Z) (languages : gset string)
    (story_num : nat) (story : Story) (seen : Dedup) (rules : list Rule)
  : M Verdict :=
  match rules with
  | [] => ret Keep
  | r :: rules' =>
      b <- rule_matches cutoff languages story_num story seen r ;;
      if b then ret (Purge r)
      else first_match cutoff languages story_num story seen rules'
  end.

(** The order of the rules. *)
Definition rule_order : list Rule :=
  [DupTitle; DupPermalink; AgeCutoff; FeedCap; Language].

(** The side effect on the sets of a story that is kept. *)
Definition note_seen (story : Story) (seen : Dedup) : Dedup :=
  if deduplicate ctx then
    mkDedup ({[NormalizeTitle story]} ∪ titles_seen seen)
            ({[permalink story]} ∪ permalinks_seen seen)
  else seen.

(** The decision for one story: run the chain; a purged story is appended
    once to the purge list, a kept story is noted in the sets. *)
Definition triage (cutoff : option Z) (languages : gset string)
    (story_num : nat) (story : Story)
    (feed_stories_to_mark : list Story) (seen : Dedup)
  : M (Verdict * list Story * Dedup) :=
  v <- first_match cutoff languages story_num story seen rule_order ;;
  match v with
  | Purge r => ret (Purge r, feed_stories_to_mark ++ [story], seen)
  | Keep => ret (Keep, feed_stories_to_mark, note_seen story seen)
  end.

(** The verdicts of the loop over a feed's stories, in order (the loop
    itself keeps only the purge list). *)
Fixpoint verdicts (cutoff : option Z) (languages : gset string)
    (story_num : nat) (feed_stories : list Story) (seen : Dedup)
  : M (list Verdict) :=
  match feed_stories with
  | [] => ret []
  | story :: rest =>
      r <- body cutoff languages story_num story [] seen ;;
      vs <- verdicts cutoff languages (S story_num) rest r.2 ;;
      ret (r.1.1 :: vs)
  end.

(** Every rule of [rules], run in order from world [w], says no, and the
    last of them leaves world [w']. *)
Fixpoint all_pass (cutoff : option Z) (languages : gset string)
    (story_num : nat) (story : Story) (seen : Dedup) (rules : list Rule)
    (w w' : World) : Prop :=
  match rules with
  | [] => w' = w
  | r :: rules' =>
      exists w1,
        rule_matches cutoff languages story_num story seen r w
          = (w1, Done false)
        /\ all_pass cutoff languages story_num story seen rules' w1 w'
  end.

End Program.

(** The stories of a list whose verdict is a purge, and those whose
    verdict is to keep. *)
Fixpoint purged_of (stories : list Story) (vs : list Verdict) : list Story :=
  match stories, vs with
  | story :: stories', Purge _ :: vs' => story :: purged_of stories' vs'
  | _ :: stories', Keep :: vs' => purged_of stories' vs'
  | _, _ => []
  end.

Fixpoint kept_of (stories : list Story) (vs : list Verdict) : list Story :=
  match stories, vs with
  | story :: stories', Keep :: vs' => story :: kept_of stories' vs'
  | _ :: stories', Purge _ :: vs' => kept_of stories' vs'
  | _, _ => []
  end.

(** Neither duplicate rule purges the story: deduplication is off, or
    the normalised title and the permalink are both new. *)
Definition dedup_pass (ctx : Config) (story : Story) (seen : Dedup) : Prop :=
  deduplicate ctx = true ->
  (NormalizeTitle story ∉ titles_seen seen)
  /\ (permalink story ∉ permalinks_seen seen).

(** The sets after the stories of [kept] were noted, one after the
    other. *)
Definition note_all (ctx : Config) (kept : list Story) (seen : Dedup) : Dedup :=
  foldl (fun d story => note_seen ctx story d) seen kept.

(** The sets of [a] are within the sets of [b]. *)
Definition seen_subseteq (a b : Dedup) : Prop :=
  titles_seen a ⊆ titles_seen b /\ permalinks_seen a ⊆ permalinks_seen b.

(** The bulk calls among a list of requests, each by its argument. *)
Fixpoint mark_requests (l : list Request) : list (list (option string)) :=
  match l with
  | [] => []
  | MarkStoriesAsReadRequest hs :: l' => hs :: mark_requests l'
  | _ :: l' => mark_requests l'
  end.

(** The stories the first [k] pages of a feed bring, when every one of
    these pages is answered; pages count from 1. *)
Fixpoint stories_upto (env : Env) (feed : Feed) (k : nat) : list Story :=
  match k with
  | O => []
  | S k' =>
      stories_upto env feed k'
      ++ match page_response env (feed_id feed) k with
         | Ok items => List.filter unread items
         | Error _ => []
         end
  end.

(** The requests for the pages [1 .. k] of a feed. *)
Fixpoint page_requests (feed : Feed) (k : nat) : list Request :=
  match k with
  | O => []
  | S k' => page_requests feed k' ++ [GetFeedPage (feed_id feed) k]
  end.

(** The world after further requests. *)
Definition sent (w : World) (rs : list Request) : World :=
  mkWorld (clock_reads w) (detect_calls w) (requests w ++ rs).

(** ** Python strings in full, and stories as the server sends them

    The record [Story] above holds titles and ids that are strings of
    code points below U+0100. What follows is not restricted that way: a
    [str] is the list of its code points, whatever they are, and the id
    and the title of a story are JSON values, whatever they are. *)

Module Raw.

(** A Python [str]: its code points. *)
Definition str : Type := list N.

(** The code points of a string of the restricted model. *)
Definition code_points (s : string) : str :=
  List.map N_of_ascii (list_ascii_of_string s).

(** Capital sigma U+03A3, small sigma U+03C3 and final small sigma
    U+03C2. *)
Definition CAPITAL_SIGMA : N := 931.
Definition SMALL_SIGMA : N := 963.
Definition FINAL_SIGMA : N := 962.

(** What [str.lower] reads of the Unicode character database: the full
    lowercase mapping of a code point (one code point, or several), and
    the properties Cased and Case_Ignorable. *)
Record UCD := mkUCD {
  to_lower_full : N -> list N;
  is_cased : N -> bool;
  is_case_ignorable : N -> bool;
}.

Section Lower.

Variable ucd : UCD.

(** The code points from the first one on that is not case-ignorable. *)
Fixpoint skip_ignorable (l : list N) : list N :=
  match l with
  | [] => []
  | c :: l' => if is_case_ignorable ucd c then skip_ignorable l' else l
  end.

(** The Final_Sigma context of a capital sigma: before it (skipping
    case-ignorable code points) stands a cased code point, and after it
    (skipping case-ignorable code points) stands none. [before] lists
    the code points before the sigma from the nearest on. *)
Definition final_sigma (before after : list N) : bool :=
  match skip_ignorable before with
  | [] => false
  | c :: _ =>
      is_cased ucd c
      && match skip_ignorable after with
         | [] => true
         | c' :: _ => negb (is_cased ucd c')
         end
  end.

(** The lowercase of the code point [c] of a string, between the code
    points [before] and [after] it. *)
Definition lower_at (before : list N) (c : N) (after : list N) : list N :=
  if (c =? CAPITAL_SIGMA)%N then
    [if final_sigma before after then FINAL_SIGMA else SMALL_SIGMA]
  else to_lower_full ucd c.

Fixpoint lower_from (before : list N) (s : str) : str :=
  match s with
  | [] => []
  | c :: s' => lower_at before c s' ++ lower_from (c :: before) s'
  end.

(** [s.lower()]. *)
Definition lower (s : str) : str := lower_from [] s.

End Lower.

(** [string.punctuation], by code points. *)
Definition punctuation : str :=
  [33; 34; 35; 36; 37; 38; 39; 40; 41; 42; 43; 44; 45; 46; 47;
   58; 59; 60; 61; 62; 63; 64;
   91; 92; 93; 94; 95; 96;
   123; 124; 125; 126]%N.

(** [c in s] for a code point [c]. *)
Fixpoint mem (c : N) (s : str) : bool :=
  match s with
  | [] => false
  | c' :: s' => if (c =? c')%N then true else mem c s'
  end.

(** [s.translate(t)] for the table [t] that [str.maketrans] builds from
    two empty strings and [del]. *)
Fixpoint translate_delete (del : str) (s : str) : str :=
  match s with
  | [] => []
  | c :: s' =>
      if mem c del then translate_delete del s'
      else c :: translate_delete del s'
  end.

(** The body of [Story.NormalizeTitle] on a title that is a [str]. *)
Definition normalize (ucd : UCD) (title : str) : str :=
  let norm_title := lower ucd title in
  let norm_title := translate_delete punctuation norm_title in
  norm_title.

(** The ASCII punctuation class, by code. *)
Definition is_ascii_punctuation (c : N) : bool :=
  (((33 <=? c) && (c <=? 47)) || ((58 <=? c) && (c <=? 64))
   || ((91 <=? c) && (c <=? 96)) || ((123 <=? c) && (c <=? 126)))%N.

(** A JSON value; what an array or an object holds is not looked at. *)
Inductive Json :=
  | JNull
  | JBool (b : bool)
  | JNumber (z : Z)
  | JString (s : str)
  | JArray
  | JObject.

(** The two entries of [story_data] that [Story.title] reads:
    [story_data["id"]], which [Story.__init__] has read, and
    [story_data["story_title"]] if the key is there ([Some JNull] is a
    title that is there and is [null]). *)
Record Story := mkStory {
  story_id : Json;
  story_title : option Json;
}.

(** [Story.title]: [self.story_data.get("story_title", self.story_id)]. *)
Definition title (s : Story) : Json :=
  match story_title s with
  | Some t => t
  | None => story_id s
  end.

(** The end of a call that can raise [AttributeError]. *)
Inductive attempt (A : Type) :=
  | Returns (a : A)
  | AttributeError.
Arguments Returns {A} a.
Arguments AttributeError {A}.

(** [Story.NormalizeTitle]: only a [str] has the method [lower]. *)
Definition NormalizeTitle (ucd : UCD) (s : Story) : attempt str :=
  match title s with
  | JString t =>
      let norm_title := lower ucd t in
      let norm_title := translate_delete punctuation norm_title in
      Returns norm_title
  | _ => AttributeError
  end.

(** The lowercase of a code point that is its own lowercase whatever
    stands around it. *)
Definition fixed_by_lower (ucd : UCD) (c : N) : Prop :=
  c <> CAPITAL_SIGMA /\ to_lower_full ucd c = [c].

(** What the properties of the normaliser need of the database: the
    ASCII letters are mapped as usual and every other ASCII code point to
    itself; the code points of a lowercase mapping, and the two small
    sigmas, are their own lowercase. *)
Definition lowercase_database (ucd : UCD) : Prop :=
  (forall c, (c < 128)%N ->
             to_lower_full ucd c
             = [if ((65 <=? c) && (c <=? 90))%N then (c + 32)%N else c])
  /\ (forall c c', In c' (to_lower_full ucd c) -> fixed_by_lower ucd c')
  /\ fixed_by_lower ucd SMALL_SIGMA
  /\ fixed_by_lower ucd FINAL_SIGMA.

(** The database agrees with the restricted model of [Str] below
    U+0100. *)
Definition latin1_database (ucd : UCD) : Prop :=
  forall a : ascii,
    to_lower_full ucd (N_of_ascii a) = [N_of_ascii (Str.lower_char a)].

End Raw.

(** A story of the restricted model, as the server sends it: its id and
    its title are strings. *)
Definition raw_of_story (s : Story) : Raw.Story :=
  Raw.mkStory
    (Raw.JString (Raw.code_points (story_id s)))
    (option_map (fun t => Raw.JString (Raw.code_points t)) (story_title s)).


(** ** The rest of the client *)

(** [NewsBlurClient.GetFeeds] on a client whose [self.feeds] is [feeds]
    ([None] after [__init__]): the result, and [self.feeds] after the
    call. [not self.feeds] holds for [None] and for the empty list. *)
Definition GetFeeds_client (env : Env) (feeds : option (list Feed))
  : M (list Feed * option (list Feed)) :=
  match feeds with
  | Some (f :: fs) => ret (f :: fs, Some (f :: fs))
  | _ => new_feeds <- GetFeeds env ;; ret (new_feeds, Some new_feeds)
  end.

(** The order of [sorted] on the titles: [f] may stand before [g]. *)
Definition title_leq (f g : Feed) : Prop := title_le f g = true.

(** The requests for a page of a feed. *)
Definition is_page_request (r : Request) : bool :=
  match r with
  | GetFeedPage _ _ => true
  | _ => false
  end.

(** The server has answered some request for a page with the story. *)
Definition served (env : Env) (story : Story) : Prop :=
  exists feed page items,
    page_response env feed page = Ok items /\ In story items.

(** The command line with an option taken away. *)
Definition without_max_days_old (ctx : Config) : Config :=
  mkConfig (deduplicate ctx) None (max_stories_per_feed ctx) (language ctx).

Definition without_max_stories_per_feed (ctx : Config) : Config :=
  mkConfig (deduplicate ctx) (max_days_old ctx) None (language ctx).

(** No option of the command line asks for a purge: no [--deduplicate],
    no positive [--max_days_old] or [--max_stories_per_feed], no
    [--language]. *)
Definition no_rule_enabled (ctx : Config) : Prop :=
  deduplicate ctx = false
  /\ positive_opt (max_days_old ctx) = false
  /\ positive_opt (max_stories_per_feed ctx) = false
  /\ languages_of ctx = ∅.

(** Every story the server has answered with has a timestamp entry
    that is true for Python. *)
Definition timestamps_given (env : Env) : Prop :=
  forall story, served env story -> truthy (story_timestamp story) = true.

(** What a part of a run may have done to the world between [w] and
    [w']: sent requests for pages, read the clock, called the detector;
    the detector not at all when no language is given, the clock not at
    all under [quiet_clock]. *)
Definition advances (languages : gset string) (quiet_clock : Prop)
    (w w' : World) : Prop :=
  (exists rs,
      requests w' = requests w ++ rs
      /\ Forall (fun r => is_page_request r = true) rs)
  /\ (clock_reads w <= clock_reads w')%nat
  /\ (detect_calls w <= detect_calls w')%nat
  /\ (languages = ∅ -> detect_calls w' = detect_calls w)
  /\ (quiet_clock -> clock_reads w' = clock_reads w).

(** ** Sample runs *)

Module Sample.

(** Midnight of 2023-11-15 (UTC), in seconds and as an instant. *)
Definition T0_SECONDS : Z := 1700006400.
Definition T0 : Z := T0_SECONDS * MICROSECONDS_PER_SECOND.

Definition story (id : string) (story_title permalink : option string)
    (ts : PyVal) : Story :=
  mkStory id story_title permalink (Some (String.append "hash:" id)) ts 0.

Definition days_old (d : Z) : PyVal := PyInt (T0_SECONDS - d * 86400).

Definition A : Story := story "a" (Some "Cats") (Some "http://x/1") (days_old 1).
Definition B : Story := story "b" (Some "cats!") (Some "http://x/2") (days_old 1).
Definition C : Story := story "c" (Some "Dogs") (Some "http://x/1") (days_old 10).
Definition N1 : Story := story "n1" (Some "First") None (days_old 1).
Definition N2 : Story := story "n2" (Some "Second") None (days_old 2).
Definition Z0 : Story := story "z0" (Some "Zero") (Some "http://x/0") (PyInt 0).
Definition U0 : Story := story "u0" None (Some "http://x/u") PyNone.
Definition S0 : Story := story "s0" (Some "Epoch") (Some "http://x/s") (PyStr "0").

Definition feed1 : Feed := mkFeed "1" (Some "One") 2.
Definition feed2 : Feed := mkFeed "2" (Some "Two") 1.

(** A server with two feeds: [A] and [B] on the first page of feed 1, [C]
    on the first page of feed 2, and nothing on any other page. The clock
    stands at [T0] and moves by a microsecond per reading; the detector
    takes every title for English; the string "0" is read as the
    epoch. *)
Definition env : Env :=
  mkEnv
    (fun k => T0 + Z.of_nat k)
    (fun _ _ => Ok "en")
    (fun s => if String.eqb s "0" then Ok 0 else Error BadTimestamp)
    (Ok tt)
    (Ok [feed2; feed1])
    (fun id page =>
       if String.eqb id "1" && Nat.eqb page 1 then Ok [A; B]
       else if String.eqb id "2" && Nat.eqb page 1 then Ok [C]
       else Ok [])
    (fun _ => Ok tt).

(** A feed that reports three unread stories on a server that has
    none for it: every page of feed 3 is empty. *)
Definition feed3 : Feed := mkFeed "3" None 3.

Definition w0 : World := mkWorld 0 0 [].

Definition no_seen : Dedup := mkDedup ∅ ∅.

Definition only_dedup : Config := mkConfig true None None None.
Definition only_age (d : Z) : Config := mkConfig false (Some d) None None.
Definition only_cap (m : Z) : Config := mkConfig false None (Some m) None.
Definition dedup_and_age (d : Z) : Config := mkConfig true (Some d) None None.
Definition everything : Config :=
  mkConfig true (Some 7) (Some 2) (Some ["en"]).

End Sample.

(** ** More samples *)

Module MoreSamples.

Definition upper_ascii (c : N) : bool := ((65 <=? c) && (c <=? 90))%N.

Definition upper_latin1 (c : N) : bool :=
  (((192 <=? c) && (c <=? 214)) || ((216 <=? c) && (c <=? 222)))%N.

Definition upper_greek (c : N) : bool :=
  (((913 <=? c) && (c <=? 929)) || ((931 <=? c) && (c <=? 939)))%N.

Definition lower_letter (c : N) : bool :=
  (((97 <=? c) && (c <=? 122)) || (c =? 170) || (c =? 181) || (c =? 186)
   || ((223 <=? c) && (c <=? 246)) || ((248 <=? c) && (c <=? 255))
   || ((945 <=? c) && (c <=? 969)))%N.

(** A part of the Unicode character database: its entries for ASCII, the
    Latin-1 supplement, the Greek capitals U+0391-U+03AB and small
    letters U+03B1-U+03C9, the capital I with dot U+0130 (whose lowercase
    is two code points) and the combining dot U+0307. The code points
    outside these blocks are entered as uncased, which the samples do not
    use. *)
Definition ucd : Raw.UCD :=
  Raw.mkUCD
    (fun c =>
       if upper_ascii c || upper_latin1 c || upper_greek c then [c + 32]%N
       else if (c =? 304)%N then [105; 775]%N
       else [c])
    (fun c =>
       upper_ascii c || upper_latin1 c || upper_greek c || (c =? 304)%N
       || lower_letter c)
    (fun c =>
       Raw.mem c [39; 46; 58; 94; 96; 168; 173; 175; 180; 183; 184; 775]%N).

(** Capital alpha, capital sigma, an exclamation mark, capital beta. *)
Definition alpha_sigma_bang_beta : Raw.str := [913; 931; 33; 914]%N.

(** A story whose title is there and is [null]. *)
Definition null_title : Raw.Story :=
  Raw.mkStory (Raw.JString (Raw.code_points "17")) (Some Raw.JNull).

(** A story without a title and with a number as its id. *)
Definition number_id : Raw.Story := Raw.mkStory (Raw.JNumber 17) None.

(** A title with runs of blanks, a tab, the Latin-1 punctuation marks
    U+00AB and U+00BB, a capital U+00C9 and the dash U+2014. *)
Definition title_with_blanks : Raw.str :=
  [171; 201; 32; 84; 69; 32; 32; 45; 32; 32; 9; 8212; 187; 32]%N.

(** The sample server on a machine whose clock is set back by ten days
    between two readings. *)
Definition env_clock_back : Env :=
  mkEnv
    (fun k => Sample.T0 - Z.of_nat k * 10 * MICROSECONDS_PER_DAY)
    (detect Sample.env)
    (instant_of_str Sample.env)
    (login_response Sample.env)
    (feeds_response Sample.env)
    (page_response Sample.env)
    (mark_response Sample.env).

End MoreSamples.

(** * Properties *)

(** ** The title normaliser *)

Module StrFacts.
Import Str.

Ltac each_ascii c :=
  destruct c as [[] [] [] [] [] [] [] []]; vm_compute; reflexivity.

(** The characters of [string.punctuation] are the ASCII punctuation
    class. *)
Lemma mem_punctuation (c : ascii) :
  mem c punctuation = is_ascii_punctuation c.
Proof. each_ascii c. Qed.

Lemma lower_char_idem (c : ascii) :
  lower_char (lower_char c) = lower_char c.
Proof. each_ascii c. Qed.

(** Lowercasing neither makes nor unmakes a punctuation character. *)
Lemma punctuation_lower_char (c : ascii) :
  is_ascii_punctuation (lower_char c) = is_ascii_punctuation c.
Proof. each_ascii c. Qed.

Lemma translate_delete_punctuation (s : string) :
  translate_delete punctuation s = remove_ascii_punctuation s.
Proof.
  induction s as [|c s IH]; [reflexivity|].
  cbn [translate_delete remove_ascii_punctuation].
  rewrite mem_punctuation, IH. reflexivity.
Qed.

Lemma normalize_cons (c : ascii) (s : string) :
  normalize (String c s) =
    if is_ascii_punctuation c then normalize s
    else String (lower_char c) (normalize s).
Proof.
  unfold normalize. cbn [lower translate_delete].
  rewrite mem_punctuation, punctuation_lower_char. reflexivity.
Qed.

(** The characters of a string, in order. *)
Lemma normalize_as_list (s : string) :
  list_ascii_of_string (normalize s) =
    List.filter (fun c => negb (is_ascii_punctuation c))
                (List.map lower_char (list_ascii_of_string s)).
Proof.
  induction s as [|c s IH]; [reflexivity|].
  rewrite normalize_cons. simpl. rewrite punctuation_lower_char.
  destruct (is_ascii_punctuation c); simpl; rewrite IH; reflexivity.
Qed.

(** A normalised string is a fixed point of the normaliser. *)
Lemma normalize_idem (s : string) : normalize (normalize s) = normalize s.
Proof.
  induction s as [|c s IH]; [reflexivity|].
  rewrite normalize_cons.
  destruct (is_ascii_punctuation c) eqn:Hc; [exact IH|].
  rewrite normalize_cons, punctuation_lower_char, Hc, lower_char_idem, IH.
  reflexivity.
Qed.

Lemma normalize_lower (s : string) : normalize (lower s) = normalize s.
Proof.
  induction s as [|c s IH]; [reflexivity|].
  simpl lower. rewrite !normalize_cons, punctuation_lower_char.
  rewrite lower_char_idem, IH. reflexivity.
Qed.

Lemma normalize_remove_punctuation (s : string) :
  normalize (remove_ascii_punctuation s) = normalize s.
Proof.
  induction s as [|c s IH]; [reflexivity|].
  simpl remove_ascii_punctuation. rewrite (normalize_cons c s).
  destruct (is_ascii_punctuation c) eqn:Hc; [exact IH|].
  rewrite normalize_cons, Hc, IH. reflexivity.
Qed.

End StrFacts.

(** ** The loop body *)

Section BodyFacts.

Variable env : Env.
Variable ctx : Config.
Variable cutoff : option Z.
Variable languages : gset string.

Lemma positive_opt_spec (o : option Z) :
  positive_opt o = match o with Some d => 0 <? d | None => false end.
Proof.
  destruct o as [d|]; [|reflexivity]. unfold positive_opt.
  destruct (Z.ltb_spec 0 d), (Z.eqb_spec d 0); simpl; try reflexivity; lia.
Qed.

Ltac run_call :=
  match goal with
  | |- context [timestamp_before ?e ?s ?c ?w] =>
      destruct (timestamp_before e s c w) as [? [[]| |]]
  | |- context [GetLanguage ?e ?s ?w] =>
      destruct (GetLanguage e s w) as [? [?| |]]
  end.

(** The body of the loop, as the program has it, is the chain of rules in
    the order of [rule_order]. *)
Lemma body_triage n story marks seen w :
  body env ctx cutoff languages n story marks seen w
  = triage env ctx cutoff languages n story marks seen w.
Proof.
  unfold body, triage, first_match, rule_order, rule_matches, note_seen.
  rewrite !positive_opt_spec.
  unfold bind, ret.
  rewrite (bool_decide_not (languages = ∅)).
  destruct (deduplicate ctx); simpl.
  1: destruct (bool_decide (NormalizeTitle story ∈ titles_seen seen));
       simpl; [reflexivity|].
  1: destruct (bool_decide (permalink story ∈ permalinks_seen seen));
       simpl; [reflexivity|].
  all: destruct (max_days_old ctx) as [d|]; [destruct (0 <? d)|].
  all: try (run_call; try reflexivity).
  all: destruct (max_stories_per_feed ctx) as [m|]; simpl.
  all: try (destruct (0 <? m); simpl).
  all: try (destruct (m <=? Z.of_nat n); simpl; try reflexivity).
  all: destruct (bool_decide (languages = ∅)); simpl; try reflexivity.
  all: run_call; try reflexivity.
  all: rewrite bool_decide_not; destruct (bool_decide (_ ∈ languages));
       reflexivity.
Qed.

Section Chain.

Variable n : nat.
Variable story : Story.
Variable seen : Dedup.

Local Abbreviation check := (rule_matches env ctx cutoff languages n story seen).
Local Abbreviation chain := (first_match env ctx cutoff languages n story seen).
Local Abbreviation pass := (all_pass env ctx cutoff languages n story seen).

Lemma first_match_cons r rules w :
  chain (r :: rules) w =
    match check r w with
    | (w1, Done true) => (w1, Done (Purge r))
    | (w1, Done false) => chain rules w1
    | (w1, Raised e) => (w1, Raised e)
    | (w1, OutOfFuel) => (w1, OutOfFuel)
    end.
Proof.
  cbn [first_match]. unfold bind.
  destruct (check r w) as [w1 [[]| |]]; reflexivity.
Qed.

(** The chain says [Purge r] exactly when [r] is a rule of the chain that
    matches after every rule before it has passed; the world it leaves
    is the one [r]'s own test leaves. *)
Lemma first_match_Purge rules w w' r :
  chain rules w = (w', Done (Purge r)) <->
  exists pre post w1,
    rules = pre ++ r :: post /\ pass pre w w1
    /\ check r w1 = (w', Done true).
Proof.
  revert w. induction rules as [|r0 rules IH]; intros w.
  - split; [discriminate|]. intros (pre & post & w1 & Hr & _).
    destruct pre; discriminate.
  - rewrite first_match_cons. split.
    + destruct (check r0 w) as [w1 [[]| |]] eqn:Hc; try discriminate.
      * intros [= -> ->]. exists [], rules, w. repeat split; assumption.
      * intros H. apply IH in H as (pre & post & w2 & -> & Hp & Hm).
        exists (r0 :: pre), post, w2. repeat split; [|assumption].
        exists w1. split; assumption.
    + intros (pre & post & w1 & Hr & Hp & Hm).
      destruct pre as [|r1 pre]; simpl in Hr, Hp.
      * injection Hr as -> ->. subst w1. rewrite Hm. reflexivity.
      * injection Hr as -> ->. destruct Hp as (w2 & Hc & Hp).
        rewrite Hc. apply IH. exists pre, post, w1. repeat split; assumption.
Qed.

(** The chain says [Keep] exactly when every rule has passed. *)
Lemma first_match_Keep rules w w' :
  chain rules w = (w', Done Keep) <-> pass rules w w'.
Proof.
  revert w. induction rules as [|r0 rules IH]; intros w.
  - simpl. unfold ret. split; [intros [= ->]|intros ->]; reflexivity.
  - rewrite first_match_cons. simpl. split.
    + destruct (check r0 w) as [w1 [[]| |]] eqn:Hc; try discriminate.
      intros H. exists w1. split; [reflexivity|]. apply IH, H.
    + intros (w1 & Hc & Hp). rewrite Hc. apply IH, Hp.
Qed.

Lemma body_Purge marks w w' r marks' seen' :
  body env ctx cutoff languages n story marks seen w
    = (w', Done (Purge r, marks', seen')) <->
  (exists pre post w1,
      rule_order = pre ++ r :: post /\ pass pre w w1
      /\ check r w1 = (w', Done true))
  /\ marks' = marks ++ [story] /\ seen' = seen.
Proof.
  rewrite body_triage. unfold triage, bind.
  rewrite <- first_match_Purge.
  destruct (chain rule_order w) as [w1 [[r1|]| |]]; unfold ret.
  - split.
    + intros [= -> -> <- <-]. auto.
    + intros ([= -> ->] & -> & ->). reflexivity.
  - split; [discriminate|]. intros ([=] & _).
  - split; [discriminate|]. intros ([=] & _).
  - split; [discriminate|]. intros ([=] & _).
Qed.

Lemma body_Keep marks w w' marks' seen' :
  body env ctx cutoff languages n story marks seen w
    = (w', Done (Keep, marks', seen')) <->
  pass rule_order w w' /\ marks' = marks
  /\ seen' = note_seen ctx story seen.
Proof.
  rewrite body_triage. unfold triage, bind.
  rewrite <- first_match_Keep.
  destruct (chain rule_order w) as [w1 [[r1|]| |]]; unfold ret.
  - split; [discriminate|]. intros ([=] & _).
  - split.
    + intros [= -> <- <-]. auto.
    + intros ([= ->] & -> & ->). reflexivity.
  - split; [discriminate|]. intros ([=] & _).
  - split; [discriminate|]. intros ([=] & _).
Qed.

End Chain.

(** What an iteration does to [feed_stories_to_mark] does not depend on
    what the list held. *)
Lemma body_marks n story marks seen w :
  body env ctx cutoff languages n story marks seen w =
    match body env ctx cutoff languages n story [] seen w with
    | (w', Done r) => (w', Done (r.1.1, marks ++ r.1.2, r.2))
    | (w', Raised e) => (w', Raised e)
    | (w', OutOfFuel) => (w', OutOfFuel)
    end.
Proof.
  rewrite !body_triage. unfold triage, bind.
  destruct (first_match _ _ _ _ _ _ _ _ w) as [w1 [[r|]| |]];
    unfold ret; simpl; rewrite ?app_nil_r; reflexivity.
Qed.

Lemma body_nil_result n story seen w w' v marks' seen' :
  body env ctx cutoff languages n story [] seen w
    = (w', Done (v, marks', seen')) ->
  match v with
  | Purge _ => marks' = [story] /\ seen' = seen
  | Keep => marks' = [] /\ seen' = note_seen ctx story seen
  end.
Proof.
  destruct v as [r|]; intros H.
  - apply body_Purge in H as (_ & -> & ->). auto.
  - apply body_Keep in H as (_ & -> & ->). auto.
Qed.

(** The loop over a feed's stories in terms of its verdicts: the purge
    list grows by the purged stories, in order; the sets grow by the
    kept ones. *)
Lemma for_stories_verdicts stories n marks seen w :
  for_stories env ctx cutoff languages n stories marks seen w =
    match verdicts env ctx cutoff languages n stories seen w with
    | (w', Done vs) =>
        (w', Done (marks ++ purged_of stories vs,
                   note_all ctx (kept_of stories vs) seen))
    | (w', Raised e) => (w', Raised e)
    | (w', OutOfFuel) => (w', OutOfFuel)
    end.
Proof.
  revert n marks seen w.
  induction stories as [|story rest IH]; intros n marks seen w.
  - simpl. unfold ret. rewrite app_nil_r. reflexivity.
  - cbn [for_stories verdicts]. unfold bind at 1 2.
    rewrite body_marks.
    destruct (body _ _ _ _ _ _ [] seen w) as [w1 [[[v m] s]| |]] eqn:Hb;
      try reflexivity.
    cbn [fst snd]. rewrite IH. unfold bind.
    destruct (verdicts _ _ _ _ _ rest s w1) as [w2 [vs| |]]; try reflexivity.
    unfold ret. apply body_nil_result in Hb.
    destruct v as [r|]; destruct Hb as [-> ->]; cbn [fst snd purged_of kept_of].
    + rewrite <- app_assoc. reflexivity.
    + rewrite app_nil_r. reflexivity.
Qed.

Lemma verdicts_length stories n seen w w' vs :
  verdicts env ctx cutoff languages n stories seen w = (w', Done vs) ->
  length vs = length stories.
Proof.
  revert n seen w w' vs.
  induction stories as [|story rest IH]; intros n seen w w' vs.
  - intros [= _ <-]. reflexivity.
  - cbn [verdicts]. unfold bind.
    destruct (body _ _ _ _ _ _ [] seen w) as [w1 [[[v m] s]| |]];
      try discriminate.
    cbn [fst snd].
    destruct (verdicts _ _ _ _ _ rest s w1) as [w2 [vs'| |]] eqn:Hv;
      try discriminate.
    intros [= _ <-]. simpl. f_equal. eapply IH, Hv.
Qed.
End BodyFacts.

Lemma purged_of_sublist stories vs : sublist (purged_of stories vs) stories.
Proof.
  revert vs. induction stories as [|story rest IH]; intros [|[r|] vs]; simpl;
    try apply sublist_nil_l.
  - apply sublist_skip, IH.
  - apply sublist_cons, IH.
Qed.

Lemma kept_of_sublist stories vs : sublist (kept_of stories vs) stories.
Proof.
  revert vs. induction stories as [|story rest IH]; intros [|[r|] vs]; simpl;
    try apply sublist_nil_l.
  - apply sublist_cons, IH.
  - apply sublist_skip, IH.
Qed.

(** Every story of a feed is purged or kept, never both. *)
Lemma purged_kept_length stories vs :
  length vs = length stories ->
  (length (purged_of stories vs) + length (kept_of stories vs))%nat
  = length stories.
Proof.
  revert vs. induction stories as [|story rest IH]; intros [|[r|] vs]; simpl;
    try discriminate; try reflexivity; intros [= H]; specialize (IH _ H); lia.
Qed.


(** ** What the rules do to the world *)

Section Frames.

Variable env : Env.
Variable ctx : Config.
Variable cutoff : option Z.
Variable languages : gset string.

Lemma timestamp_world story w w' o :
  timestamp env story w = (w', o) ->
  requests w' = requests w /\ detect_calls w' = detect_calls w
  /\ clock_reads w' =
       (if truthy (story_timestamp story) then clock_reads w
        else S (clock_reads w)).
Proof.
  unfold timestamp, now, lift, ret, raise.
  destruct (story_timestamp story) as [|z|s]; simpl.
  - intros [= <- _]. auto.
  - destruct (negb (z =? 0)).
    + destruct (fromtimestamp_int z); intros [= <- _]; auto.
    + intros [= <- _]. auto.
  - destruct s.
    + intros [= <- _]. auto.
    + destruct (instant_of_str env _); intros [= <- _]; auto.
Qed.

Lemma timestamp_before_world story w w' o :
  timestamp_before env story cutoff w = (w', o) ->
  requests w' = requests w /\ detect_calls w' = detect_calls w
  /\ clock_reads w' =
       (if truthy (story_timestamp story) then clock_reads w
        else S (clock_reads w)).
Proof.
  unfold timestamp_before, bind.
  destruct (timestamp env story w) as [w1 [t| |]] eqn:Ht;
    apply timestamp_world in Ht.
  - destruct cutoff; intros [= <- _]; exact Ht.
  - intros [= <- _]; exact Ht.
  - intros [= <- _]; exact Ht.
Qed.

Lemma GetLanguage_world story w w' o :
  GetLanguage env story w = (w', o) ->
  w' = mkWorld (clock_reads w) (S (detect_calls w)) (requests w).
Proof.
  unfold GetLanguage, lift, ret, raise.
  destruct (detect env _ _); intros [= <- _]; reflexivity.
Qed.

(** A rule other than the age rule and the language rule is a test of
    the program's variables: it leaves the world alone. The age rule may
    read the clock, once; the language rule may call the detector,
    once. No rule sends a request. *)
Lemma rule_matches_world n story seen r w w' o :
  rule_matches env ctx cutoff languages n story seen r w = (w', o) ->
  requests w' = requests w
  /\ (r <> AgeCutoff -> clock_reads w' = clock_reads w)
  /\ (r <> Language -> detect_calls w' = detect_calls w)
  /\ (r <> AgeCutoff -> r <> Language -> w' = w)
  /\ (clock_reads w <= clock_reads w' <= S (clock_reads w))%nat
  /\ (detect_calls w <= detect_calls w' <= S (detect_calls w))%nat.
Proof.
  destruct r; unfold rule_matches, ret.
  - intros [= <- _]. repeat split; lia.
  - intros [= <- _]. repeat split; lia.
  - assert (Hsame : forall o', (w, o') = (w', o) ->
      requests w' = requests w
      /\ (AgeCutoff <> AgeCutoff -> clock_reads w' = clock_reads w)
      /\ (AgeCutoff <> Language -> detect_calls w' = detect_calls w)
      /\ (AgeCutoff <> AgeCutoff -> AgeCutoff <> Language -> w' = w)
      /\ (clock_reads w <= clock_reads w' <= S (clock_reads w))%nat
      /\ (detect_calls w <= detect_calls w' <= S (detect_calls w))%nat).
    { intros o' [= <- _]. repeat split; try lia; congruence. }
    destruct (max_days_old ctx) as [d|]; [destruct (0 <? d)|];
      try apply Hsame.
    intros H. apply timestamp_before_world in H as (Hr & Hd & Hc).
    repeat split; try congruence; try lia;
      destruct (truthy _); lia.
  - destruct (max_stories_per_feed ctx); intros [= <- _]; repeat split; lia.
  - destruct (bool_decide (languages = ∅)).
    + intros [= <- _]. repeat split; lia.
    + unfold bind.
      destruct (GetLanguage env story w) as [w1 [l| |]] eqn:Hl;
        apply GetLanguage_world in Hl; subst w1;
        intros [= <- _]; simpl; repeat split; try congruence; lia.
Qed.

Lemma all_pass_world n story seen rules w w' :
  all_pass env ctx cutoff languages n story seen rules w w' ->
  requests w' = requests w
  /\ (AgeCutoff ∉ rules -> clock_reads w' = clock_reads w)
  /\ (Language ∉ rules -> detect_calls w' = detect_calls w)
  /\ (AgeCutoff ∉ rules -> Language ∉ rules -> w' = w).
Proof.
  revert w. induction rules as [|r rules IH]; intros w.
  - simpl. intros ->. auto.
  - simpl. intros (w1 & Hc & Hp).
    apply rule_matches_world in Hc as (Hr & Hclock & Hdet & Hw & _).
    apply IH in Hp as (Hr' & Hclock' & Hdet' & Hw').
    split; [congruence|]. split; [|split].
    + intros [Hne Hn]%not_elem_of_cons.
      rewrite Hclock' by exact Hn. apply Hclock. congruence.
    + intros [Hne Hn]%not_elem_of_cons.
      rewrite Hdet' by exact Hn. apply Hdet. congruence.
    + intros [Hne Hn]%not_elem_of_cons [Hne' Hn']%not_elem_of_cons.
      rewrite Hw' by assumption. apply Hw; congruence.
Qed.

(** Where a rule stands in the order decides which rules come before
    it. *)
Lemma rule_order_before pre r post :
  rule_order = pre ++ r :: post ->
  (r <> Language -> Language ∉ pre)
  /\ (r = DupTitle \/ r = DupPermalink -> (AgeCutoff ∉ pre) /\ (Language ∉ pre)).
Proof.
  unfold rule_order.
  destruct pre as [|? [|? [|? [|? [|? pre]]]]]; intros [= ]; subst;
    try (destruct pre; discriminate);
    (split; [intros Hn | intros [Hd|Hd]; try discriminate Hd]);
    try congruence; repeat split; compute_done.
Qed.

(** An iteration that ends in a purge by a rule before the language rule
    has not called the detector, and one that ends in a purge by one of
    the two duplicate rules has not read the clock either. *)
Lemma body_Purge_world n story marks seen w w' r marks' seen' :
  body env ctx cutoff languages n story marks seen w
    = (w', Done (Purge r, marks', seen')) ->
  requests w' = requests w
  /\ (r <> Language -> detect_calls w' = detect_calls w)
  /\ (r = DupTitle \/ r = DupPermalink -> w' = w).
Proof.
  intros H. apply body_Purge in H as ((pre & post & w1 & Ho & Hp & Hm) & _).
  apply all_pass_world in Hp as (Hr & Hclock & Hdet & Hw).
  apply rule_matches_world in Hm as (Hr' & Hclock' & Hdet' & Hw' & _).
  apply rule_order_before in Ho as [Hlang Hdup].
  split; [congruence|]. split.
  - intros Hn. rewrite Hdet' by exact Hn. apply Hdet, Hlang, Hn.
  - intros Hd. destruct (Hdup Hd) as [Ha Hl].
    rewrite Hw'; [apply Hw; assumption| |]; destruct Hd; congruence.
Qed.

End Frames.

(** C1: the decision for a story is the chain of the five rules in the
    order duplicate title, duplicate permalink, age cutoff, per-feed cap,
    language filter, each rule guarded by its option. The loop body of
    the program is that chain: it ends in the purge of rule [r] exactly
    when every rule before [r] has said no and [r] says yes, and the world
    it leaves is the one [r]'s own test leaves, so no rule after [r] has
    run (a purge by a rule before the language rule has not called the
    detector; a purge by a duplicate rule has not read the clock). It
    ends in [Keep] exactly when all five rules have said no. A purged
    story is appended once to the purge list and a kept story is not
    appended: over a feed, the purge list grows by the purged stories,
    each once, in their order. *)
Theorem C1_ordered_rule_chain (env : Env) (ctx : Config)
    (cutoff : option Z) (languages : gset string) (n : nat)
    (story : Story) (marks : list Story) (seen : Dedup) (w : World) :
  rule_order = [DupTitle; DupPermalink; AgeCutoff; FeedCap; Language]
  /\ body env ctx cutoff languages n story marks seen w
     = triage env ctx cutoff languages n story marks seen w
  /\ (forall w' r marks' seen',
         body env ctx cutoff languages n story marks seen w
           = (w', Done (Purge r, marks', seen')) <->
         (exists pre post w1,
             rule_order = pre ++ r :: post
             /\ all_pass env ctx cutoff languages n story seen pre w w1
             /\ rule_matches env ctx cutoff languages n story seen r w1
                = (w', Done true))
         /\ marks' = marks ++ [story] /\ seen' = seen)
  /\ (forall w' marks' seen',
         body env ctx cutoff languages n story marks seen w
           = (w', Done (Keep, marks', seen')) <->
         all_pass env ctx cutoff languages n story seen rule_order w w'
         /\ marks' = marks /\ seen' = note_seen ctx story seen)
  /\ (forall w' r marks' seen',
         body env ctx cutoff languages n story marks seen w
           = (w', Done (Purge r, marks', seen')) ->
         requests w' = requests w
         /\ (r <> Language -> detect_calls w' = detect_calls w)
         /\ (r = DupTitle \/ r = DupPermalink -> w' = w))
  /\ (forall stories,
         for_stories env ctx cutoff languages n stories marks seen w =
           match verdicts env ctx cutoff languages n stories seen w with
           | (w', Done vs) =>
               (w', Done (marks ++ purged_of stories vs,
                          note_all ctx (kept_of stories vs) seen))
           | (w', Raised e) => (w', Raised e)
           | (w', OutOfFuel) => (w', OutOfFuel)
           end)
  /\ (forall stories vs,
         sublist (purged_of stories vs) stories
         /\ (length vs = length stories ->
             (length (purged_of stories vs) + length (kept_of stories vs))%nat
             = length stories)).
Proof.
  split; [reflexivity|].
  split; [apply body_triage|].
  split; [intros; apply body_Purge|].
  split; [intros; apply body_Keep|].
  split; [intros w' r marks' seen'; apply body_Purge_world|].
  split; [intros; apply for_stories_verdicts|].
  intros stories vs. split.
  - apply purged_of_sublist.
  - apply purged_kept_length.
Qed.

(** A story that is a duplicate and older than the cutoff: the title
    rule purges it, once, and the clock is not read for it. *)
Lemma C1_duplicate_and_old :
  (exists pre post w1,
      rule_order = pre ++ DupTitle :: post
      /\ all_pass Sample.env (Sample.dedup_and_age 7) (Some Sample.T0) ∅ 0
           Sample.C (mkDedup {["dogs"]} ∅) pre Sample.w0 w1
      /\ rule_matches Sample.env (Sample.dedup_and_age 7) (Some Sample.T0) ∅ 0
           Sample.C (mkDedup {["dogs"]} ∅) DupTitle w1
         = (Sample.w0, Done true))
  /\ [Sample.A; Sample.C] = [Sample.A] ++ [Sample.C]
  /\ mkDedup {["dogs"]} ∅ = mkDedup {["dogs"]} ∅.
Proof.
  apply (proj1 (proj1 (proj2 (proj2
           (C1_ordered_rule_chain Sample.env (Sample.dedup_and_age 7)
              (Some Sample.T0) ∅ 0 Sample.C [Sample.A]
              (mkDedup {["dogs"]} ∅) Sample.w0)))
           Sample.w0 DupTitle [Sample.A; Sample.C] (mkDedup {["dogs"]} ∅))).
  vm_compute. reflexivity.
Defined.


(** ** Rule by rule *)

Section Rules.

Variable env : Env.
Variable ctx : Config.
Variable cutoff : option Z.
Variable languages : gset string.
Variable n : nat.
Variable story : Story.
Variable seen : Dedup.

Local Abbreviation check :=
  (rule_matches env ctx cutoff languages n story seen).
Local Abbreviation pass := (all_pass env ctx cutoff languages n story seen).
Local Abbreviation run := (body env ctx cutoff languages n story).

(** The decomposition of the order around one of its rules. *)
Lemma rule_order_at pre r post :
  rule_order = pre ++ r :: post ->
  match r with
  | DupTitle => pre = []
  | DupPermalink => pre = [DupTitle]
  | AgeCutoff => pre = [DupTitle; DupPermalink]
  | FeedCap => pre = [DupTitle; DupPermalink; AgeCutoff]
  | Language => pre = [DupTitle; DupPermalink; AgeCutoff; FeedCap]
  end.
Proof.
  unfold rule_order.
  destruct pre as [|? [|? [|? [|? [|? pre]]]]]; intros [= ]; subst;
    try reflexivity; destruct pre; discriminate.
Qed.

Lemma rule_order_at_inv r :
  exists pre post,
    rule_order = pre ++ r :: post
    /\ pre = match r with
             | DupTitle => []
             | DupPermalink => [DupTitle]
             | AgeCutoff => [DupTitle; DupPermalink]
             | FeedCap => [DupTitle; DupPermalink; AgeCutoff]
             | Language => [DupTitle; DupPermalink; AgeCutoff; FeedCap]
             end.
Proof.
  destruct r; eexists _, _; (split; [|reflexivity]); reflexivity.
Qed.

(** The purge by rule [r], with the rules before [r] spelled out. *)
Lemma body_Purge_at r marks w w' marks' seen' :
  run marks seen w = (w', Done (Purge r, marks', seen')) <->
  (exists w1,
      pass match r with
           | DupTitle => []
           | DupPermalink => [DupTitle]
           | AgeCutoff => [DupTitle; DupPermalink]
           | FeedCap => [DupTitle; DupPermalink; AgeCutoff]
           | Language => [DupTitle; DupPermalink; AgeCutoff; FeedCap]
           end w w1
      /\ check r w1 = (w', Done true))
  /\ marks' = marks ++ [story] /\ seen' = seen.
Proof.
  rewrite body_Purge. split.
  - intros ((pre & post & w1 & Ho & Hp & Hm) & Hrest). split; [|exact Hrest].
    apply rule_order_at in Ho. exists w1.
    destruct r; subst pre; auto.
  - intros ((w1 & Hp & Hm) & Hrest). split; [|exact Hrest].
    destruct (rule_order_at_inv r) as (pre & post & Ho & Hpre).
    exists pre, post, w1. subst pre. auto.
Qed.

Lemma check_DupTitle w :
  check DupTitle w =
    (w, Done (deduplicate ctx
              && bool_decide (NormalizeTitle story ∈ titles_seen seen))).
Proof. reflexivity. Qed.

Lemma check_DupPermalink w :
  check DupPermalink w =
    (w, Done (deduplicate ctx
              && bool_decide (permalink story ∈ permalinks_seen seen))).
Proof. reflexivity. Qed.

(** The two duplicate rules pass exactly when deduplication is off or
    the title and the permalink are new; they leave the world alone. *)
Lemma pass_dedup w w' :
  pass [DupTitle; DupPermalink] w w' <-> dedup_pass ctx story seen /\ w' = w.
Proof.
  unfold dedup_pass. simpl. unfold ret. split.
  - intros (w1 & [= <- Ht] & w2 & [= <- Hp] & ->). split; [|reflexivity].
    intros Hd. rewrite Hd in Ht, Hp. simpl in Ht, Hp.
    apply bool_decide_eq_false in Ht, Hp. auto.
  - intros [Hd ->]. exists w. split.
    + do 2 f_equal. destruct (deduplicate ctx); [|reflexivity].
      simpl. apply bool_decide_eq_false, Hd. reflexivity.
    + exists w. split; [|reflexivity].
      do 2 f_equal. destruct (deduplicate ctx); [|reflexivity].
      simpl. apply bool_decide_eq_false, Hd. reflexivity.
Qed.

Lemma body_DupTitle marks w w' marks' seen' :
  run marks seen w = (w', Done (Purge DupTitle, marks', seen')) <->
  deduplicate ctx = true /\ NormalizeTitle story ∈ titles_seen seen
  /\ w' = w /\ marks' = marks ++ [story] /\ seen' = seen.
Proof.
  rewrite body_Purge_at. simpl. unfold ret. split.
  - intros ((w1 & -> & [= <- Hm]) & -> & ->).
    apply andb_true_iff in Hm as [Hd Hm]. apply bool_decide_eq_true in Hm.
    auto.
  - intros (Hd & Hm & -> & -> & ->). split; [|auto].
    exists w. split; [reflexivity|]. rewrite Hd. simpl.
    do 2 f_equal. apply bool_decide_eq_true, Hm.
Qed.

Lemma body_DupPermalink marks w w' marks' seen' :
  run marks seen w = (w', Done (Purge DupPermalink, marks', seen')) <->
  deduplicate ctx = true /\ (NormalizeTitle story ∉ titles_seen seen)
  /\ permalink story ∈ permalinks_seen seen
  /\ w' = w /\ marks' = marks ++ [story] /\ seen' = seen.
Proof.
  rewrite body_Purge_at. simpl. unfold ret. split.
  - intros ((w1 & (w2 & [= <- Ht] & ->) & [= <- Hm]) & -> & ->).
    apply andb_true_iff in Hm as [Hd Hm]. apply bool_decide_eq_true in Hm.
    rewrite Hd in Ht. simpl in Ht. apply bool_decide_eq_false in Ht.
    repeat split; assumption.
  - intros (Hd & Ht & Hm & -> & -> & ->). split; [|auto].
    exists w. rewrite Hd. simpl. split.
    + exists w. split; [|reflexivity].
      do 2 f_equal. apply bool_decide_eq_false, Ht.
    + do 2 f_equal. apply bool_decide_eq_true, Hm.
Qed.

Lemma pass_app rules1 rules2 w w' :
  pass (rules1 ++ rules2) w w' <->
  exists w1, pass rules1 w w1 /\ pass rules2 w1 w'.
Proof.
  revert w. induction rules1 as [|r rules1 IH]; intros w; simpl.
  - split.
    + intros H. exists w. auto.
    + intros (w1 & -> & H). exact H.
  - split.
    + intros (w1 & Hc & Hp). apply IH in Hp as (w2 & Hp1 & Hp2).
      exists w2. split; [|exact Hp2]. exists w1. auto.
    + intros (w2 & (w1 & Hc & Hp1) & Hp2). exists w1. split; [exact Hc|].
      apply IH. exists w2. auto.
Qed.

Lemma body_AgeCutoff marks w w' marks' seen' :
  run marks seen w = (w', Done (Purge AgeCutoff, marks', seen')) <->
  dedup_pass ctx story seen /\ check AgeCutoff w = (w', Done true)
  /\ marks' = marks ++ [story] /\ seen' = seen.
Proof.
  rewrite body_Purge_at. split.
  - intros ((w1 & [Hd ->]%pass_dedup & Hm) & Hrest). auto.
  - intros (Hd & Hm & Hrest). split; [|exact Hrest].
    exists w. split; [apply pass_dedup; auto|exact Hm].
Qed.


End Rules.


(** ** The two sets *)

Section Seen.

Variable env : Env.
Variable ctx : Config.
Variable cutoff : option Z.
Variable languages : gset string.

#[local] Instance seen_subseteq_refl : Reflexive seen_subseteq.
Proof. intros d. split; reflexivity. Qed.

#[local] Instance seen_subseteq_trans : Transitive seen_subseteq.
Proof. intros a b c [H1 H2] [H3 H4]. split; etrans; eassumption. Qed.

Lemma note_seen_subseteq story seen :
  seen_subseteq seen (note_seen ctx story seen).
Proof.
  unfold note_seen. destruct (deduplicate ctx); [|reflexivity].
  split; simpl; set_solver.
Qed.

Lemma note_all_subseteq kept seen :
  seen_subseteq seen (note_all ctx kept seen).
Proof.
  revert seen. induction kept as [|story kept IH]; intros seen; simpl.
  - reflexivity.
  - etrans; [apply note_seen_subseteq|apply IH].
Qed.



Lemma body_seen n story marks seen w w' v marks' seen' :
  body env ctx cutoff languages n story marks seen w
    = (w', Done (v, marks', seen')) ->
  seen' = match v with
          | Purge _ => seen
          | Keep => note_seen ctx story seen
          end.
Proof.
  destruct v as [r|]; intros H.
  - apply body_Purge in H as (_ & _ & ->). reflexivity.
  - apply body_Keep in H as (_ & _ & ->). reflexivity.
Qed.

Lemma for_stories_seen stories n marks seen w w' marks' seen' :
  for_stories env ctx cutoff languages n stories marks seen w
    = (w', Done (marks', seen')) ->
  exists vs,
    verdicts env ctx cutoff languages n stories seen w = (w', Done vs)
    /\ length vs = length stories
    /\ marks' = marks ++ purged_of stories vs
    /\ seen' = note_all ctx (kept_of stories vs) seen.
Proof.
  rewrite for_stories_verdicts.
  destruct (verdicts _ _ _ _ _ _ _ w) as [w1 [vs| |]] eqn:Hv;
    try discriminate.
  intros [= <- <- <-]. exists vs. repeat split.
  eapply verdicts_length, Hv.
Qed.

Lemma for_feeds_seen fuel feeds all seen w w' all' seen' :
  for_feeds env ctx fuel cutoff languages feeds all seen w
    = (w', Done (all', seen')) ->
  seen_subseteq seen seen'.
Proof.
  revert all seen w. induction feeds as [|feed rest IH]; intros all seen w.
  - intros [= _ _ <-]. reflexivity.
  - cbn [for_feeds]. unfold bind at 1.
    destruct (process_feed _ _ _ _ _ _ _ _ w) as [w1 [[a s]| |]] eqn:Hp;
      try discriminate.
    cbn [fst snd]. intros H. apply IH in H.
    etrans; [|exact H]. clear H IH.
    unfold process_feed, bind in Hp.
    destruct (fetch_loop _ _ _ _ _ w) as [w2 [l| |]]; try discriminate.
    destruct (for_stories _ _ _ _ _ _ _ _ w2) as [w3 [[m s']| |]] eqn:Hf;
      try discriminate.
    apply for_stories_seen in Hf as (vs & _ & _ & _ & ->).
    cbn [fst snd] in Hp.
    destruct m; injection Hp as _ _ <-; apply note_all_subseteq.
Qed.

End Seen.




(** C4: with deduplication on, a story without a permalink has the
    permalink [None], and [None] is an element of [permalinks_seen] like
    any other: the first story without a permalink that is kept puts it
    there, it stays there for the rest of the run, and from then on every
    story without a permalink whose normalised title is new is purged by
    the permalink rule, as a story with an equal permalink would be. *)
Theorem C4_missing_permalink_is_a_value (env : Env) (ctx : Config)
    (cutoff : option Z) (languages : gset string)
    (n : nat) (a : Story) (marks : list Story) (seen : Dedup)
    (w w' : World) (marks1 : list Story) (seen1 : Dedup) :
  deduplicate ctx = true ->
  permalink a = None ->
  body env ctx cutoff languages n a marks seen w
    = (w', Done (Keep, marks1, seen1)) ->
  None ∈ permalinks_seen seen1
  /\ (forall m stories marks2 w2 w3 marks3 seen2,
         for_stories env ctx cutoff languages m stories marks2 seen1 w2
           = (w3, Done (marks3, seen2)) ->
         None ∈ permalinks_seen seen2)
  /\ (forall fuel feeds all w2 w3 all' seen2,
         for_feeds env ctx fuel cutoff languages feeds all seen1 w2
           = (w3, Done (all', seen2)) ->
         None ∈ permalinks_seen seen2)
  /\ (forall seen2 m b marks2 w2,
         seen_subseteq seen1 seen2 ->
         permalink b = None ->
         NormalizeTitle b ∉ titles_seen seen2 ->
         body env ctx cutoff languages m b marks2 seen2 w2
           = (w2, Done (Purge DupPermalink, marks2 ++ [b], seen2))).
Proof.
  intros Hd Ha Hb.
  assert (Hin : None ∈ permalinks_seen seen1).
  { apply body_seen in Hb. subst seen1. unfold note_seen.
    rewrite Hd, Ha. simpl. set_solver. }
  split; [exact Hin|]. split; [|split].
  - intros m stories marks2 w2 w3 marks3 seen2 H.
    apply for_stories_seen in H as (vs & _ & _ & _ & ->).
    apply (note_all_subseteq ctx), Hin.
  - intros fuel feeds all w2 w3 all' seen2 H.
    apply for_feeds_seen in H. apply H, Hin.
  - intros seen2 m b marks2 w2 Hsub Hpb Hnew.
    apply body_DupPermalink. rewrite Hpb.
    repeat split; try assumption. apply Hsub, Hin.
Qed.

(** Two stories without a permalink and with different titles: the first
    is kept, the second is purged by the permalink rule. *)
Lemma C4_two_stories_without_permalink :
  body Sample.env Sample.only_dedup None ∅ 1 Sample.N2 []
    (mkDedup {["first"]} {[None]}) Sample.w0
  = (Sample.w0,
     Done (Purge DupPermalink, [] ++ [Sample.N2],
           mkDedup {["first"]} {[None]})).
Proof.
  refine (proj2 (proj2 (proj2
            (C4_missing_permalink_is_a_value Sample.env Sample.only_dedup
               None ∅ 0 Sample.N1 [] Sample.no_seen Sample.w0 Sample.w0 []
               (mkDedup {["first"]} {[None]}) _ _ _)))
            (mkDedup {["first"]} {[None]}) 1%nat Sample.N2 [] Sample.w0
            _ _ _).
  - reflexivity.
  - reflexivity.
  - vm_compute. reflexivity.
  - split; reflexivity.
  - reflexivity.
  - apply (bool_decide_unpack _). vm_compute. exact I.
Defined.


(** ** The per-feed cap *)

Section Cap.

Variable env : Env.
Variable ctx : Config.
Variable cutoff : option Z.

(** With the cap as the only option, an iteration is the comparison of
    the position with the cap, whatever the story is. *)
Lemma body_only_cap m n story marks seen w :
  deduplicate ctx = false ->
  max_days_old ctx = None ->
  max_stories_per_feed ctx = Some m ->
  0 < m ->
  body env ctx cutoff ∅ n story marks seen w =
    (w, Done (if m <=? Z.of_nat n
              then (Purge FeedCap, marks ++ [story], seen)
              else (Keep, marks, seen))).
Proof.
  intros Hd Ha Hm H0. unfold body. rewrite Hd, Ha, Hm. simpl.
  unfold bind, ret. simpl.
  assert (Hz : (m =? 0) = false) by lia.
  assert (Hp : (0 <? m) = true) by lia.
  rewrite Hz, Hp. simpl.
  destruct (m <=? Z.of_nat n); reflexivity.
Qed.

Lemma for_stories_only_cap m stories n marks seen w :
  deduplicate ctx = false ->
  max_days_old ctx = None ->
  max_stories_per_feed ctx = Some m ->
  0 < m ->
  for_stories env ctx cutoff ∅ n stories marks seen w =
    (w, Done (marks ++ drop (Z.to_nat m - n) stories, seen)).
Proof.
  intros Hd Ha Hm H0. revert n marks.
  induction stories as [|story rest IH]; intros n marks.
  - simpl. rewrite drop_nil, app_nil_r. reflexivity.
  - cbn [for_stories]. unfold bind.
    rewrite (body_only_cap m) by assumption.
    destruct (Z.leb_spec m (Z.of_nat n)) as [Hle|Hlt]; cbn [fst snd].
    + rewrite IH.
      replace (Z.to_nat m - n)%nat with 0%nat by lia.
      replace (Z.to_nat m - S n)%nat with 0%nat by lia.
      simpl. rewrite <- app_assoc. reflexivity.
    + rewrite IH.
      replace (Z.to_nat m - n)%nat with (S (Z.to_nat m - S n)) by lia.
      reflexivity.
Qed.

End Cap.




(** ** The age cutoff *)

Section Age.

Variable env : Env.
Variable ctx : Config.

Lemma timestamp_before_Some story c w :
  timestamp_before env story (Some c) w =
    match timestamp env story w with
    | (w1, Done t) => (w1, Done (t <? c))
    | (w1, Raised e) => (w1, Raised e)
    | (w1, OutOfFuel) => (w1, OutOfFuel)
    end.
Proof.
  unfold timestamp_before, bind.
  destruct (timestamp env story w) as [w1 [t| |]]; reflexivity.
Qed.

(** The test of the age rule when [max_days_old] is positive. *)
Lemma check_AgeCutoff d cutoff languages n story seen w :
  max_days_old ctx = Some d ->
  0 < d ->
  rule_matches env ctx cutoff languages n story seen AgeCutoff w
  = timestamp_before env story cutoff w.
Proof.
  intros Hd H0. unfold rule_matches. rewrite Hd.
  assert (Hp : (0 <? d) = true) by lia. rewrite Hp. reflexivity.
Qed.

(** The cutoff is the first reading of the clock minus the days. *)
Lemma compute_cutoff_eq d w :
  max_days_old ctx = Some d ->
  d <> 0 ->
  compute_cutoff env ctx w =
    (mkWorld (S (clock_reads w)) (detect_calls w) (requests w),
     if (-999999999 <=? d) && (d <=? 999999999)
        && in_datetime_range (clock env (clock_reads w)
                              - d * MICROSECONDS_PER_DAY)
     then Done (Some (clock env (clock_reads w) - d * MICROSECONDS_PER_DAY))
     else Raised DateOverflow).
Proof.
  intros Hd H0. unfold compute_cutoff. rewrite Hd. simpl.
  assert (Hz : (d =? 0) = false) by lia. rewrite Hz. simpl.
  unfold bind, now, timedelta_days, datetime_sub, lift, ret, raise.
  destruct ((-999999999 <=? d) && (d <=? 999999999)); simpl; [|reflexivity].
  destruct (in_datetime_range _); reflexivity.
Qed.

(** A story whose timestamp entry is false for Python (absent, [0] or
    the empty string) has the reading of the clock as its timestamp. *)
Lemma timestamp_falsy story w :
  truthy (story_timestamp story) = false ->
  timestamp env story w =
    (mkWorld (S (clock_reads w)) (detect_calls w) (requests w),
     Done (clock env (clock_reads w))).
Proof.
  unfold timestamp. intros ->. reflexivity.
Qed.

End Age.




(** C10: a story whose timestamp entry is absent or is [0] takes the
    reading of the clock, at the moment the age rule looks at it, as its
    timestamp. On a clock that does not go backwards this reading is not
    before the reading at the start of the run, hence not before the
    cutoff, which lies a positive number of days earlier: the age rule
    does not match such a story, and no iteration ends in its purge by
    that rule. *)
Theorem C10_missing_timestamp_is_now (env : Env) (ctx : Config) (d : Z)
    (w0 w1 : World) (cutoff : option Z) (languages : gset string)
    (n : nat) (story : Story) (marks : list Story) (seen : Dedup)
    (w : World) :
  (forall i j : nat, (i <= j)%nat -> clock env i <= clock env j) ->
  max_days_old ctx = Some d ->
  0 < d ->
  compute_cutoff env ctx w0 = (w1, Done cutoff) ->
  (clock_reads w0 <= clock_reads w)%nat ->
  story_timestamp story = PyNone \/ story_timestamp story = PyInt 0 ->
  timestamp env story w
    = (mkWorld (S (clock_reads w)) (detect_calls w) (requests w),
       Done (clock env (clock_reads w)))
  /\ rule_matches env ctx cutoff languages n story seen AgeCutoff w
     = (mkWorld (S (clock_reads w)) (detect_calls w) (requests w),
        Done false)
  /\ (forall w' marks' seen',
         body env ctx cutoff languages n story marks seen w
           <> (w', Done (Purge AgeCutoff, marks', seen'))).
Proof.
  intros Hmono Hd H0 Hc Hafter Hts.
  assert (Hf : truthy (story_timestamp story) = false).
  { destruct Hts as [-> | ->]; reflexivity. }
  pose proof (timestamp_falsy env story w Hf) as Ht.
  rewrite (compute_cutoff_eq env ctx d) in Hc by (assumption || lia).
  destruct ((-999999999 <=? d) && (d <=? 999999999)
            && in_datetime_range _); [|discriminate].
  injection Hc as <- <-.
  assert (Hcheck :
    rule_matches env ctx
      (Some (clock env (clock_reads w0) - d * MICROSECONDS_PER_DAY))
      languages n story seen AgeCutoff w
    = (mkWorld (S (clock_reads w)) (detect_calls w) (requests w),
       Done false)).
  { rewrite (check_AgeCutoff env ctx d) by assumption.
    rewrite timestamp_before_Some, Ht. do 2 f_equal.
    specialize (Hmono _ _ Hafter). unfold MICROSECONDS_PER_DAY,
      MICROSECONDS_PER_SECOND. lia. }
  split; [exact Ht|]. split; [exact Hcheck|].
  intros w' marks' seen' H.
  apply body_AgeCutoff in H as (_ & H & _).
  rewrite Hcheck in H. discriminate H.
Qed.

(** A story with the timestamp [0] and a story without one, under a
    cutoff of seven days: the age rule lets both pass. *)
Lemma C10_zero_and_absent :
  (timestamp Sample.env Sample.Z0 (mkWorld 1 0 [])
     = (mkWorld 2 0 [], Done (clock Sample.env 1))
   /\ rule_matches Sample.env (Sample.only_age 7)
        (Some (Sample.T0 - 7 * MICROSECONDS_PER_DAY)) ∅ 0 Sample.Z0
        Sample.no_seen AgeCutoff (mkWorld 1 0 [])
      = (mkWorld 2 0 [], Done false)
   /\ (forall w' marks' seen',
          body Sample.env (Sample.only_age 7)
            (Some (Sample.T0 - 7 * MICROSECONDS_PER_DAY)) ∅ 0 Sample.Z0 []
            Sample.no_seen (mkWorld 1 0 [])
          <> (w', Done (Purge AgeCutoff, marks', seen'))))
  /\ (timestamp Sample.env Sample.U0 (mkWorld 1 0 [])
      = (mkWorld 2 0 [], Done (clock Sample.env 1))
      /\ rule_matches Sample.env (Sample.only_age 7)
           (Some (Sample.T0 - 7 * MICROSECONDS_PER_DAY)) ∅ 1 Sample.U0
           Sample.no_seen AgeCutoff (mkWorld 1 0 [])
         = (mkWorld 2 0 [], Done false)
      /\ (forall w' marks' seen',
             body Sample.env (Sample.only_age 7)
               (Some (Sample.T0 - 7 * MICROSECONDS_PER_DAY)) ∅ 1 Sample.U0 []
               Sample.no_seen (mkWorld 1 0 [])
             <> (w', Done (Purge AgeCutoff, marks', seen')))).
Proof.
  assert (Hmono : forall i j : nat,
             (i <= j)%nat -> clock Sample.env i <= clock Sample.env j).
  { intros i j Hij. simpl. lia. }
  split.
  - apply (C10_missing_timestamp_is_now Sample.env (Sample.only_age 7) 7
             Sample.w0 (mkWorld 1 0 [])
             (Some (Sample.T0 - 7 * MICROSECONDS_PER_DAY)) ∅ 0 Sample.Z0 []
             Sample.no_seen (mkWorld 1 0 []) Hmono).
    + reflexivity.
    + lia.
    + vm_compute. reflexivity.
    + simpl. lia.
    + right. reflexivity.
  - apply (C10_missing_timestamp_is_now Sample.env (Sample.only_age 7) 7
             Sample.w0 (mkWorld 1 0 [])
             (Some (Sample.T0 - 7 * MICROSECONDS_PER_DAY)) ∅ 1 Sample.U0 []
             Sample.no_seen (mkWorld 1 0 []) Hmono).
    + reflexivity.
    + lia.
    + vm_compute. reflexivity.
    + simpl. lia.
    + left. reflexivity.
Defined.

(** The timestamp entry "0", a string, is true for Python: it is
    converted, and the story is as old as the epoch. *)
Lemma timestamp_string_zero :
  truthy (PyStr "0") = true
  /\ timestamp Sample.env Sample.S0 (mkWorld 1 0 [])
     = (mkWorld 1 0 [], Done 0)
  /\ body Sample.env (Sample.only_age 7)
       (Some (Sample.T0 - 7 * MICROSECONDS_PER_DAY)) ∅ 0 Sample.S0 []
       Sample.no_seen (mkWorld 1 0 [])
     = (mkWorld 1 0 [],
        Done (Purge AgeCutoff, [Sample.S0], Sample.no_seen)).
Proof. repeat split. Qed.


(** ** The fetch loop *)

Section Fetch.

Variable env : Env.
Variable feed : Feed.

Local Abbreviation upto := (stories_upto env feed).
Local Abbreviation reqs := (page_requests feed).

Lemma fetch_loop_unfold fuel page feed_stories :
  fetch_loop env fuel feed page feed_stories =
    if Z.of_nat (length feed_stories) <? unread_count feed then
      match fuel with
      | O => out_of_fuel
      | S fuel' =>
          bind (GetStories env feed page)
            (fun new_stories =>
               fetch_loop env fuel' feed (S page)
                 (feed_stories ++ new_stories))
      end
    else ret feed_stories.
Proof. destruct fuel; reflexivity. Qed.

(** One request for a page, after the [k] pages before it. *)
Lemma GetStories_next k w :
  GetStories env feed (S k) (sent w (reqs k)) =
    (sent w (reqs (S k)),
     match page_response env (feed_id feed) (S k) with
     | Ok items => Done (List.filter unread items)
     | Error e => Raised e
     end).
Proof.
  unfold GetStories, bind, Request_, lift, ret, raise, sent. simpl.
  rewrite <- app_assoc.
  destruct (page_response env (feed_id feed) (S k)); reflexivity.
Qed.

(** The loop stops at the first page [K] with which the stories
    fetched so far are as many as the feed reported. *)
Lemma fetch_loop_reaches fuel k K w :
  (k <= K)%nat ->
  (forall p, (k < p <= K)%nat ->
             exists items, page_response env (feed_id feed) p = Ok items) ->
  (forall i, (k <= i < K)%nat ->
             Z.of_nat (length (upto i)) < unread_count feed) ->
  unread_count feed <= Z.of_nat (length (upto K)) ->
  (K - k <= fuel)%nat ->
  fetch_loop env fuel feed (S k) (upto k) (sent w (reqs k)) =
    (sent w (reqs K), Done (upto K)).
Proof.
  revert k. induction fuel as [|fuel IH]; intros k HkK Hok Hless Hfull Hfuel.
  - assert (k = K) by lia. subst k. rewrite fetch_loop_unfold.
    assert (Hc : (Z.of_nat (length (upto K)) <? unread_count feed) = false)
      by lia.
    rewrite Hc. reflexivity.
  - rewrite fetch_loop_unfold.
    destruct (Nat.eq_dec k K) as [->|Hne].
    + assert (Hc : (Z.of_nat (length (upto K)) <? unread_count feed) = false)
        by lia.
      rewrite Hc. reflexivity.
    + assert (Hc : (Z.of_nat (length (upto k)) <? unread_count feed) = true).
      { specialize (Hless k). lia. }
      rewrite Hc. unfold bind. rewrite GetStories_next.
      destruct (Hok (S k)) as [items Hitems]; [lia|].
      rewrite Hitems.
      replace (upto k ++ List.filter unread items) with (upto (S k))
        by (simpl; rewrite Hitems; reflexivity).
      apply IH; try lia.
      * intros p Hp. apply Hok. lia.
      * intros i Hi. apply Hless. lia.
Qed.

(** It has no other way to stop: while every page is answered and the
    stories fetched stay fewer than the feed reported, it asks for the
    next page. *)
Lemma fetch_loop_starved fuel k w :
  (forall p, (k < p <= k + fuel)%nat ->
             exists items, page_response env (feed_id feed) p = Ok items) ->
  (forall i, (k <= i <= k + fuel)%nat ->
             Z.of_nat (length (upto i)) < unread_count feed) ->
  fetch_loop env fuel feed (S k) (upto k) (sent w (reqs k)) =
    (sent w (reqs (k + fuel)), OutOfFuel).
Proof.
  revert k. induction fuel as [|fuel IH]; intros k Hok Hless.
  - rewrite fetch_loop_unfold.
    assert (Hc : (Z.of_nat (length (upto k)) <? unread_count feed) = true).
    { specialize (Hless k). lia. }
    rewrite Hc, Nat.add_0_r. reflexivity.
  - rewrite fetch_loop_unfold.
    assert (Hc : (Z.of_nat (length (upto k)) <? unread_count feed) = true).
    { specialize (Hless k). lia. }
    rewrite Hc. unfold bind. rewrite GetStories_next.
    destruct (Hok (S k)) as [items Hitems]; [lia|].
    rewrite Hitems.
    replace (upto k ++ List.filter unread items) with (upto (S k))
      by (simpl; rewrite Hitems; reflexivity).
    replace (k + S fuel)%nat with (S k + fuel)%nat by lia.
    apply IH.
    + intros p Hp. apply Hok. lia.
    + intros i Hi. apply Hless. lia.
Qed.

(** A request that fails ends the loop with its exception. *)
Lemma fetch_loop_fails fuel k K e w :
  (k <= K)%nat ->
  (forall p, (k < p <= K)%nat ->
             exists items, page_response env (feed_id feed) p = Ok items) ->
  (forall i, (k <= i <= K)%nat ->
             Z.of_nat (length (upto i)) < unread_count feed) ->
  page_response env (feed_id feed) (S K) = Error e ->
  (K - k < fuel)%nat ->
  fetch_loop env fuel feed (S k) (upto k) (sent w (reqs k)) =
    (sent w (reqs (S K)), Raised e).
Proof.
  revert k. induction fuel as [|fuel IH]; intros k HkK Hok Hless He Hfuel;
    [lia|].
  rewrite fetch_loop_unfold.
  assert (Hc : (Z.of_nat (length (upto k)) <? unread_count feed) = true).
  { specialize (Hless k). lia. }
  rewrite Hc. unfold bind. rewrite GetStories_next.
  destruct (Nat.eq_dec k K) as [->|Hne].
  - rewrite He. reflexivity.
  - destruct (Hok (S k)) as [items Hitems]; [lia|].
    rewrite Hitems.
    replace (upto k ++ List.filter unread items) with (upto (S k))
      by (simpl; rewrite Hitems; reflexivity).
    apply IH; try lia; try assumption.
    + intros p Hp. apply Hok. lia.
    + intros i Hi. apply Hless. lia.
Qed.

Lemma sent_nil w : sent w [] = w.
Proof. destruct w. unfold sent. simpl. rewrite app_nil_r. reflexivity. Qed.

End Fetch.

(** C3, as the program has it: the loop asks for page after page until
    the unread stories fetched so far are as many as the feed reported,
    and stops at the first page [K] with which they are (zero requests
    when the feed reported none); a request that fails ends it with the
    exception. There is no other exit: a page without new stories does
    not stop the loop, and while the pages are answered and the stories
    stay fewer than reported, every amount of fuel runs out. *)
Theorem C3_fetch_loop_stops_at_count (env : Env) (feed : Feed) (w : World) :
  (forall K fuel,
      (forall p, (0 < p <= K)%nat ->
                 exists items, page_response env (feed_id feed) p = Ok items) ->
      (forall i, (i < K)%nat ->
                 Z.of_nat (length (stories_upto env feed i))
                 < unread_count feed) ->
      unread_count feed <= Z.of_nat (length (stories_upto env feed K)) ->
      (K <= fuel)%nat ->
      fetch_loop env fuel feed 1 [] w =
        (sent w (page_requests feed K), Done (stories_upto env feed K)))
  /\ (forall fuel,
         (forall p, (0 < p <= fuel)%nat ->
                    exists items,
                      page_response env (feed_id feed) p = Ok items) ->
         (forall i, (i <= fuel)%nat ->
                    Z.of_nat (length (stories_upto env feed i))
                    < unread_count feed) ->
         fetch_loop env fuel feed 1 [] w =
           (sent w (page_requests feed fuel), OutOfFuel))
  /\ (forall K fuel e,
         (forall p, (0 < p <= K)%nat ->
                    exists items,
                      page_response env (feed_id feed) p = Ok items) ->
         (forall i, (i <= K)%nat ->
                    Z.of_nat (length (stories_upto env feed i))
                    < unread_count feed) ->
         page_response env (feed_id feed) (S K) = Error e ->
         (K < fuel)%nat ->
         fetch_loop env fuel feed 1 [] w =
           (sent w (page_requests feed (S K)), Raised e)).
Proof.
  split; [|split].
  - intros K fuel Hok Hless Hfull Hfuel.
    rewrite <- (sent_nil w) at 1.
    apply (fetch_loop_reaches env feed fuel 0 K w); try lia; try assumption.
    intros i Hi. apply Hless. lia.
  - intros fuel Hok Hless.
    rewrite <- (sent_nil w) at 1.
    apply (fetch_loop_starved env feed fuel 0 w).
    + intros p Hp. apply Hok. lia.
    + intros i Hi. apply Hless. lia.
  - intros K fuel e Hok Hless He Hfuel.
    rewrite <- (sent_nil w) at 1.
    apply (fetch_loop_fails env feed fuel 0 K e w); try lia; try assumption.
    intros i Hi. apply Hless. lia.
Qed.

(** Feed 1 reports two unread stories, and its first page has them. *)
Lemma C3_first_page_is_enough :
  fetch_loop Sample.env 3 Sample.feed1 1 [] Sample.w0 =
    (sent Sample.w0 (page_requests Sample.feed1 1),
     Done (stories_upto Sample.env Sample.feed1 1)).
Proof.
  apply (proj1 (C3_fetch_loop_stops_at_count Sample.env Sample.feed1
                  Sample.w0) 1%nat 3%nat).
  - intros p Hp. assert (p = 1%nat) as -> by lia. eexists. reflexivity.
  - intros i Hi. assert (i = 0%nat) as -> by lia. vm_compute. reflexivity.
  - vm_compute. discriminate.
  - lia.
Defined.

Lemma stories_upto_feed3 (k : nat) :
  stories_upto Sample.env Sample.feed3 k = [].
Proof.
  induction k as [|k IH]; [reflexivity|].
  cbn [stories_upto]. rewrite IH. reflexivity.
Qed.

(** Feed 3 reports three unread stories and the server has none: every
    page comes back without a story, and the loop goes on asking; no
    amount of fuel lets it return. *)
Lemma C3_empty_pages_do_not_stop :
  unread_count Sample.feed3 = 3
  /\ (forall page,
         page_response Sample.env (feed_id Sample.feed3) page = Ok [])
  /\ (forall fuel,
         fetch_loop Sample.env fuel Sample.feed3 1 [] Sample.w0 =
           (sent Sample.w0 (page_requests Sample.feed3 fuel), OutOfFuel))
  /\ ~ (exists fuel w' feed_stories,
           fetch_loop Sample.env fuel Sample.feed3 1 [] Sample.w0
           = (w', Done feed_stories)).
Proof.
  assert (Hrun : forall fuel,
    fetch_loop Sample.env fuel Sample.feed3 1 [] Sample.w0 =
      (sent Sample.w0 (page_requests Sample.feed3 fuel), OutOfFuel)).
  { intros fuel.
    apply (fetch_loop_starved Sample.env Sample.feed3 fuel 0 Sample.w0).
    - intros p _. exists []. reflexivity.
    - intros i _. rewrite stories_upto_feed3. reflexivity. }
  split; [reflexivity|]. split; [reflexivity|]. split; [exact Hrun|].
  intros (fuel & w' & l & H). rewrite Hrun in H. discriminate H.
Qed.


(** ** The bulk call *)

Lemma mark_requests_app (a b : list Request) :
  mark_requests (a ++ b) = mark_requests a ++ mark_requests b.
Proof.
  induction a as [|r a IH]; [reflexivity|].
  destruct r; simpl; rewrite IH; reflexivity.
Qed.

Section Run.

Variable env : Env.
Variable ctx : Config.
Variable cutoff : option Z.
Variable languages : gset string.

Lemma first_match_requests n story seen rules w w' o :
  first_match env ctx cutoff languages n story seen rules w = (w', o) ->
  requests w' = requests w.
Proof.
  revert w. induction rules as [|r rules IH]; intros w.
  - intros [= <- _]. reflexivity.
  - rewrite first_match_cons.
    destruct (rule_matches _ _ _ _ _ _ _ r w) as [w1 [[]| |]] eqn:Hc;
      apply rule_matches_world in Hc as (Hr & _).
    + intros [= <- _]. exact Hr.
    + intros H. apply IH in H. congruence.
    + intros [= <- _]. exact Hr.
    + intros [= <- _]. exact Hr.
Qed.

(** An iteration over a story sends nothing, however it ends. *)
Lemma body_requests n story marks seen w w' o :
  body env ctx cutoff languages n story marks seen w = (w', o) ->
  requests w' = requests w.
Proof.
  rewrite body_triage. unfold triage, bind.
  destruct (first_match _ _ _ _ _ _ _ _ w) as [w1 [[r|]| |]] eqn:Hf;
    apply first_match_requests in Hf; unfold ret;
    intros [= <- _]; exact Hf.
Qed.

Lemma for_stories_requests stories n marks seen w w' o :
  for_stories env ctx cutoff languages n stories marks seen w = (w', o) ->
  requests w' = requests w.
Proof.
  revert n marks seen w.
  induction stories as [|story rest IH]; intros n marks seen w.
  - intros [= <- _]. reflexivity.
  - cbn [for_stories]. unfold bind at 1.
    destruct (body _ _ _ _ _ _ _ _ w) as [w1 [r| |]] eqn:Hb;
      apply body_requests in Hb.
    + intros H. apply IH in H. congruence.
    + intros [= <- _]. exact Hb.
    + intros [= <- _]. exact Hb.
Qed.

(** The fetch loop sends requests for pages only. *)
Lemma fetch_loop_marks fuel feed page feed_stories w w' o :
  fetch_loop env fuel feed page feed_stories w = (w', o) ->
  mark_requests (requests w') = mark_requests (requests w).
Proof.
  revert page feed_stories w.
  induction fuel as [|fuel IH]; intros page feed_stories w;
    rewrite fetch_loop_unfold;
    destruct (Z.of_nat (length feed_stories) <? unread_count feed);
    try (intros [= <- _]; reflexivity).
  unfold bind at 1, GetStories, bind, Request_, lift, ret, raise.
  destruct (page_response env (feed_id feed) page) as [items|e].
  - intros H. apply IH in H. rewrite H. simpl.
    rewrite mark_requests_app. simpl. apply app_nil_r.
  - intros [= <- _]. simpl. rewrite mark_requests_app. simpl.
    apply app_nil_r.
Qed.

(** One iteration of the loop over the feeds, unfolded. *)
Lemma process_feed_eq fuel feed all seen w :
  process_feed env ctx fuel cutoff languages feed all seen w =
    match fetch_loop env fuel feed 1 [] w with
    | (w1, Done feed_stories) =>
        match for_stories env ctx cutoff languages 0 feed_stories [] seen w1
        with
        | (w2, Done r) => (w2, Done (all ++ r.1, r.2))
        | (w2, Raised e) => (w2, Raised e)
        | (w2, OutOfFuel) => (w2, OutOfFuel)
        end
    | (w1, Raised e) => (w1, Raised e)
    | (w1, OutOfFuel) => (w1, OutOfFuel)
    end.
Proof.
  unfold process_feed, bind.
  destruct (fetch_loop env fuel feed 1 [] w) as [w1 [l| |]]; try reflexivity.
  destruct (for_stories _ _ _ _ _ _ _ _ w1) as [w2 [[m s]| |]];
    try reflexivity.
  destruct m; simpl; unfold ret; rewrite ?app_nil_r; reflexivity.
Qed.

Lemma for_feeds_by_feed fuel feeds all seen w w' all' seen' :
  for_feeds env ctx fuel cutoff languages feeds all seen w
    = (w', Done (all', seen')) ->
  exists ls,
    purges_by_feed env ctx fuel cutoff languages feeds seen w = (w', Done ls)
    /\ length ls = length feeds
    /\ all' = all ++ concat ls.
Proof.
  revert all seen w. induction feeds as [|feed rest IH]; intros all seen w.
  - intros [= <- <- _]. exists []. rewrite app_nil_r. repeat split.
  - cbn [for_feeds purges_by_feed]. unfold bind at 1.
    rewrite process_feed_eq. unfold bind.
    destruct (fetch_loop env fuel feed 1 [] w) as [w1 [l| |]];
      try discriminate.
    destruct (for_stories _ _ _ _ _ _ _ _ w1) as [w2 [[m s]| |]];
      try discriminate.
    cbn [fst snd]. intros H. apply IH in H as (ls & -> & Hlen & ->).
    exists (m :: ls). unfold ret. simpl. rewrite Hlen, app_assoc.
    repeat split.
Qed.

Lemma for_feeds_marks fuel feeds all seen w w' o :
  for_feeds env ctx fuel cutoff languages feeds all seen w = (w', o) ->
  mark_requests (requests w') = mark_requests (requests w).
Proof.
  revert all seen w. induction feeds as [|feed rest IH]; intros all seen w.
  - intros [= <- _]. reflexivity.
  - cbn [for_feeds]. unfold bind at 1. rewrite process_feed_eq.
    destruct (fetch_loop env fuel feed 1 [] w) as [w1 [l| |]] eqn:Hf;
      apply fetch_loop_marks in Hf;
      try (intros [= <- _]; exact Hf).
    destruct (for_stories _ _ _ _ _ _ _ _ w1) as [w2 [[m s]| |]] eqn:Hs;
      apply for_stories_requests in Hs;
      try (intros [= <- _]; congruence).
    intros H. apply IH in H. congruence.
Qed.

End Run.

Section Main.

Variable env : Env.
Variable ctx : Config.

Lemma compute_cutoff_requests w w' o :
  compute_cutoff env ctx w = (w', o) -> requests w' = requests w.
Proof.
  unfold compute_cutoff.
  destruct (max_days_old ctx) as [d|]; [|intros [= <- _]; reflexivity].
  destruct (int_truthy (Some d)); [|intros [= <- _]; reflexivity].
  unfold bind, now, lift, ret, raise.
  destruct (timedelta_days d) as [delta|]; [|intros [= <- _]; reflexivity].
  destruct (datetime_sub _ delta); intros [= <- _]; reflexivity.
Qed.

(** Up to the end of the loop over the feeds no bulk call is sent. *)
Lemma main_feeds_marks fuel w w' o :
  main_feeds env ctx fuel w = (w', o) ->
  mark_requests (requests w') = mark_requests (requests w).
Proof.
  unfold main_feeds, bind at 1 2 3.
  unfold Request_ at 1, GetFeeds, bind, Request_, lift, ret, raise.
  assert (H1 : mark_requests (requests w ++ [Login])
               = mark_requests (requests w)).
  { rewrite mark_requests_app. apply app_nil_r. }
  assert (H2 : mark_requests ((requests w ++ [Login]) ++ [GetFeedsRequest])
               = mark_requests (requests w)).
  { rewrite mark_requests_app, H1. apply app_nil_r. }
  destruct (login_response env); [|intros [= <- _]; exact H1]. simpl.
  destruct (feeds_response env) as [items|]; [|intros [= <- _]; exact H2].
  simpl.
  destruct (compute_cutoff env ctx _) as [w1 [c| |]] eqn:Hc;
    apply compute_cutoff_requests in Hc; simpl in Hc;
    try (intros [= <- _]; rewrite Hc; exact H2).
  intros H. apply for_feeds_marks in H. rewrite H, Hc. exact H2.
Qed.

(** What the loop over the feeds of a run returns is the concatenation
    of the purge lists of the feeds. *)
Lemma main_feeds_by_feed fuel w w' all seen :
  main_feeds env ctx fuel w = (w', Done (all, seen)) ->
  exists items cutoff w1 ls,
    feeds_response env = Ok items
    /\ purges_by_feed env ctx fuel cutoff (languages_of ctx)
         (List.filter (fun f => 0 <? unread_count f) (sorted_by_title items))
         (mkDedup ∅ ∅) w1
       = (w', Done ls)
    /\ all = concat ls.
Proof.
  unfold main_feeds, bind at 1 2 3.
  unfold Request_ at 1, GetFeeds, bind, Request_, lift, ret, raise.
  destruct (login_response env); [|discriminate]. simpl.
  destruct (feeds_response env) as [items|]; [|discriminate]. simpl.
  destruct (compute_cutoff env ctx _) as [w1 [c| |]]; try discriminate.
  intros H. apply for_feeds_by_feed in H as (ls & Hp & _ & ->).
  exists items, c, w1, ls. repeat split. exact Hp.
Qed.

(** The end of [main]. *)
Lemma main_eq fuel w :
  main env ctx fuel w =
    match main_feeds env ctx fuel w with
    | (w1, Done (all, _)) =>
        match all with
        | [] => (w1, Done [])
        | _ :: _ =>
            (sent w1 [MarkStoriesAsReadRequest (hash <$> all)],
             match mark_response env (hash <$> all) with
             | Ok _ => Done all
             | Error e => Raised e
             end)
        end
    | (w1, Raised e) => (w1, Raised e)
    | (w1, OutOfFuel) => (w1, OutOfFuel)
    end.
Proof.
  unfold main, bind.
  destruct (main_feeds env ctx fuel w) as [w1 [[all seen]| |]];
    try reflexivity.
  destruct all as [|story all]; [reflexivity|].
  cbn [fst mark_if_needed]. unfold MarkStoriesAsRead, Request_, lift, sent.
  destruct (mark_response env _); reflexivity.
Qed.

End Main.

(** C5: up to the end of the loop over the feeds a run sends no bulk
    call. After the loop it sends one, and only if [all_stories_to_mark]
    is not empty; the argument of the call is the list of the hashes of
    [all_stories_to_mark], which is the concatenation of the purge lists
    of the feeds, in the order of the feeds, each purge list in the order
    of its stories. A run in which no story is purged, or which an
    exception ends before the loop is over, sends no bulk call. *)
Theorem C5_one_bulk_call (env : Env) (ctx : Config) (fuel : nat) (w : World) :
  main env ctx fuel w =
    match main_feeds env ctx fuel w with
    | (w1, Done (all, _)) =>
        match all with
        | [] => (w1, Done [])
        | _ :: _ =>
            (sent w1 [MarkStoriesAsReadRequest (hash <$> all)],
             match mark_response env (hash <$> all) with
             | Ok _ => Done all
             | Error e => Raised e
             end)
        end
    | (w1, Raised e) => (w1, Raised e)
    | (w1, OutOfFuel) => (w1, OutOfFuel)
    end
  /\ (forall w1 o,
         main_feeds env ctx fuel w = (w1, o) ->
         mark_requests (requests w1) = mark_requests (requests w))
  /\ (forall w1 all seen,
         main_feeds env ctx fuel w = (w1, Done (all, seen)) ->
         exists items cutoff w0 ls,
           feeds_response env = Ok items
           /\ purges_by_feed env ctx fuel cutoff (languages_of ctx)
                (List.filter (fun f => 0 <? unread_count f)
                   (sorted_by_title items))
                (mkDedup ∅ ∅) w0
              = (w1, Done ls)
           /\ all = concat ls)
  /\ (forall w' o,
         main env ctx fuel w = (w', o) ->
         mark_requests (requests w') =
           mark_requests (requests w)
           ++ match main_feeds env ctx fuel w with
              | (_, Done (story :: all, _)) => [hash <$> story :: all]
              | _ => []
              end).
Proof.
  split; [apply main_eq|].
  split; [intros w1 o; apply main_feeds_marks|].
  split; [intros w1 all seen; apply main_feeds_by_feed|].
  intros w' o. rewrite main_eq.
  destruct (main_feeds env ctx fuel w) as [w1 [[all seen]| |]] eqn:Hf;
    apply main_feeds_marks in Hf.
  - destruct all as [|story all].
    + intros [= <- _]. rewrite Hf, app_nil_r. reflexivity.
    + intros [= <- _]. unfold sent. simpl.
      rewrite mark_requests_app, Hf. reflexivity.
  - intros [= <- _]. rewrite Hf, app_nil_r. reflexivity.
  - intros [= <- _]. rewrite Hf, app_nil_r. reflexivity.
Qed.

(** A run with deduplication over the two feeds of the sample server:
    [B] is purged in feed "One", [C] in feed "Two", and the run ends
    with one bulk call for the two of them. Without any option nothing
    is purged and no bulk call is sent. *)
Lemma C5_sample_runs :
  mark_requests
    (requests
       (mkWorld 0 0
          [Login; GetFeedsRequest; GetFeedPage "1" 1; GetFeedPage "2" 1;
           MarkStoriesAsReadRequest [Some "hash:b"; Some "hash:c"]]))
  = mark_requests (requests Sample.w0)
    ++ match main_feeds Sample.env Sample.only_dedup 5 Sample.w0 with
       | (_, Done (story :: all, _)) => [hash <$> story :: all]
       | _ => []
       end
  /\ main Sample.env Sample.only_dedup 5 Sample.w0
     = (mkWorld 0 0
          [Login; GetFeedsRequest; GetFeedPage "1" 1; GetFeedPage "2" 1;
           MarkStoriesAsReadRequest [Some "hash:b"; Some "hash:c"]],
        Done [Sample.B; Sample.C])
  /\ main Sample.env (mkConfig false None None None) 5 Sample.w0
     = (mkWorld 0 0
          [Login; GetFeedsRequest; GetFeedPage "1" 1; GetFeedPage "2" 1],
        Done []).
Proof.
  split; [|split].
  - apply (proj2 (proj2 (proj2
             (C5_one_bulk_call Sample.env Sample.only_dedup 5 Sample.w0)))
             _ (Done [Sample.B; Sample.C])).
    vm_compute. reflexivity.
  - vm_compute. reflexivity.
  - vm_compute. reflexivity.
Defined.


(** ** The order of the feeds *)

Section Sorting.

Lemma ascii_compare_N (a b : ascii) :
  Ascii.compare a b = N.compare (N_of_ascii a) (N_of_ascii b).
Proof. reflexivity. Qed.

Lemma ascii_compare_Eq (a b : ascii) : Ascii.compare a b = Eq <-> a = b.
Proof.
  split; [apply Ascii.compare_eq_iff|].
  intros ->. rewrite ascii_compare_N. apply N.compare_refl.
Qed.

Lemma string_compare_refl (s : string) : String.compare s s = Eq.
Proof.
  induction s as [|a s IH]; [reflexivity|].
  simpl. rewrite ascii_compare_N, N.compare_refl. exact IH.
Qed.

(** The comparison of strings is transitive on "not greater". *)
Lemma string_compare_trans (s1 s2 s3 : string) :
  String.compare s1 s2 <> Gt -> String.compare s2 s3 <> Gt ->
  String.compare s1 s3 <> Gt.
Proof.
  revert s2 s3. induction s1 as [|a s1 IH]; intros [|b s2] [|c s3]; simpl;
    try congruence.
  rewrite !ascii_compare_N.
  destruct (N.compare_spec (N_of_ascii a) (N_of_ascii b)) as [Hab|Hab|Hab];
    destruct (N.compare_spec (N_of_ascii b) (N_of_ascii c)) as [Hbc|Hbc|Hbc];
    try congruence; intros H1 H2.
  - rewrite Hab, Hbc, N.compare_refl. eapply IH; eassumption.
  - rewrite Hab. apply N.compare_lt_iff in Hbc. rewrite Hbc. discriminate.
  - rewrite <- Hbc. apply N.compare_lt_iff in Hab. rewrite Hab. discriminate.
  - assert (Hac : (N_of_ascii a < N_of_ascii c)%N) by lia.
    apply N.compare_lt_iff in Hac. rewrite Hac. discriminate.
Qed.

Lemma title_le_total f g : title_le f g = false -> title_le g f = true.
Proof.
  unfold title_le. rewrite (String.compare_antisym (Feed_title f)).
  destruct (String.compare (Feed_title g) (Feed_title f)); simpl;
    congruence.
Qed.

Lemma title_le_false_ne f g :
  title_le f g = false -> Feed_title g <> Feed_title f.
Proof.
  unfold title_le. intros H Heq. rewrite Heq, string_compare_refl in H.
  discriminate.
Qed.

#[local] Instance title_leq_trans : Transitive title_leq.
Proof.
  intros f g h. unfold title_leq, title_le. intros H1 H2.
  pose proof (string_compare_trans (Feed_title f) (Feed_title g)
                (Feed_title h)) as Ht.
  destruct (String.compare (Feed_title f) (Feed_title g)); try discriminate;
    destruct (String.compare (Feed_title g) (Feed_title h));
    try discriminate;
    destruct (String.compare (Feed_title f) (Feed_title h));
    try reflexivity; exfalso; apply Ht; congruence.
Qed.

Lemma insert_sorted_perm f l : Permutation (insert_sorted f l) (f :: l).
Proof.
  induction l as [|g l IH]; simpl; [reflexivity|].
  destruct (title_le f g); [reflexivity|].
  rewrite IH. apply perm_swap.
Qed.

Lemma insert_sorted_sorted f l :
  StronglySorted title_leq l -> StronglySorted title_leq (insert_sorted f l).
Proof.
  induction 1 as [|g l Hl IH Hg]; simpl.
  - repeat constructor.
  - destruct (title_le f g) eqn:Hfg.
    + constructor; [constructor; assumption|].
      constructor; [exact Hfg|].
      eapply Forall_impl; [exact Hg|].
      intros h Hh. etrans; [exact Hfg|exact Hh].
    + constructor; [exact IH|].
      rewrite (insert_sorted_perm f l). constructor; [|exact Hg].
      apply title_le_total, Hfg.
Qed.

(** Among the feeds of one title, insertion puts the new feed first. *)
Lemma insert_sorted_filter (P : Feed -> bool) f l :
  (forall g h, P g = true -> P h = true -> Feed_title g = Feed_title h) ->
  List.filter P (insert_sorted f l) = List.filter P (f :: l).
Proof.
  intros HP. induction l as [|g l IH]; [reflexivity|].
  cbn [insert_sorted]. destruct (title_le f g) eqn:Hfg; [reflexivity|].
  cbn [List.filter] in *. rewrite IH.
  destruct (P f) eqn:Hf, (P g) eqn:Hg; try reflexivity.
  apply title_le_false_ne in Hfg. destruct Hfg. apply HP; assumption.
Qed.

End Sorting.

(** X1: the feeds [GetFeeds] returns are the feeds of the answer, each as
    often as the answer has it, in the order of their titles (compared
    code point by code point, no feed before a feed with a smaller
    title); feeds with the same title keep the order of the answer. *)
Theorem X1_feeds_sorted_by_title (items : list Feed) :
  Permutation (sorted_by_title items) items
  /\ StronglySorted title_leq (sorted_by_title items)
  /\ (forall t : string,
         List.filter (fun f => String.eqb (Feed_title f) t)
           (sorted_by_title items)
         = List.filter (fun f => String.eqb (Feed_title f) t) items).
Proof.
  split; [|split].
  - induction items as [|f items IH]; [reflexivity|].
    simpl. rewrite insert_sorted_perm, IH. reflexivity.
  - induction items as [|f items IH]; [constructor|].
    simpl. apply insert_sorted_sorted, IH.
  - intros t. induction items as [|f items IH]; [reflexivity|].
    cbn [sorted_by_title List.fold_right].
    fold (sorted_by_title items).
    rewrite insert_sorted_filter.
    + cbn [List.filter]. rewrite IH. reflexivity.
    + intros g h Hg Hh. apply String.eqb_eq in Hg, Hh. congruence.
Qed.


(** ** The feeds of a client *)

(** X2: [GetFeeds] asks the server only while the client holds no feed.
    A call that returns leaves the returned list in [self.feeds]; if the
    list has a feed, every later call returns it again without a
    request; if it is empty, the next call asks the server again, as a
    new client would. *)
Theorem X2_GetFeeds_keeps_the_feeds (env : Env) (feeds : option (list Feed))
    (w w1 : World) (l : list Feed) (cache : option (list Feed)) :
  GetFeeds_client env feeds w = (w1, Done (l, cache)) ->
  cache = Some l
  /\ (feeds = None \/ feeds = Some [] ->
      w1 = sent w [GetFeedsRequest]
      /\ exists items,
           feeds_response env = Ok items /\ l = sorted_by_title items)
  /\ (l <> [] ->
      forall w2, GetFeeds_client env cache w2 = (w2, Done (l, cache)))
  /\ (l = [] ->
      forall w2, GetFeeds_client env cache w2 = GetFeeds_client env None w2).
Proof.
  intros H.
  assert (Hfetch : forall w0 w0' l0 c0,
             (new_feeds <- GetFeeds env ;; ret (new_feeds, Some new_feeds)) w0
             = (w0', Done (l0, c0)) ->
             c0 = Some l0 /\ w0' = sent w0 [GetFeedsRequest]
             /\ exists items,
                  feeds_response env = Ok items /\ l0 = sorted_by_title items).
  { intros w0 w0' l0 c0.
    unfold GetFeeds, bind, Request_, lift, ret, raise, sent.
    destruct (feeds_response env) as [items|]; [|discriminate].
    intros [= <- <- <-]. split; [reflexivity|]. split; [reflexivity|].
    exists items. split; reflexivity. }
  assert (Hc : cache = Some l).
  { destruct feeds as [[|f fs]|]; simpl in H.
    - apply Hfetch in H. apply H.
    - injection H as _ <- <-. reflexivity.
    - apply Hfetch in H. apply H. }
  split; [exact Hc|]. split; [|split].
  - intros [-> | ->]; simpl in H; apply Hfetch in H; apply H.
  - intros Hne w2. subst cache. destruct l as [|f fs]; [congruence|].
    reflexivity.
  - intros -> w2. subst cache. reflexivity.
Qed.

(** The sample server has two feeds: the first call of a new client
    asks for them, the second call sends nothing. *)
Lemma X2_sample_second_call :
  GetFeeds_client Sample.env (Some [Sample.feed1; Sample.feed2])
    (sent Sample.w0 [GetFeedsRequest])
  = (sent Sample.w0 [GetFeedsRequest],
     Done ([Sample.feed1; Sample.feed2],
           Some [Sample.feed1; Sample.feed2])).
Proof.
  refine (proj1 (proj2 (proj2
            (X2_GetFeeds_keeps_the_feeds Sample.env None Sample.w0
               (sent Sample.w0 [GetFeedsRequest])
               [Sample.feed1; Sample.feed2]
               (Some [Sample.feed1; Sample.feed2]) _))) _ _).
  - vm_compute. reflexivity.
  - discriminate.
Defined.

(** ** Duplicates of a kept story *)

(** X4: with deduplication on, once a story is kept, every story that
    comes later in the run (in the same feed or in a later one) and
    has the same normalised title is purged by the title rule, and every
    later story with a new title and the same permalink is purged by the
    permalink rule; neither reads the clock nor calls the detector. *)
Theorem X4_later_duplicate_is_purged (env : Env) (ctx : Config)
    (cutoff : option Z) (languages : gset string)
    (n : nat) (a : Story) (marks : list Story) (seen : Dedup)
    (w w' : World) (marks1 : list Story) (seen1 : Dedup) :
  deduplicate ctx = true ->
  body env ctx cutoff languages n a marks seen w
    = (w', Done (Keep, marks1, seen1)) ->
  forall seen2 m b marks2 w2,
    seen_subseteq seen1 seen2 ->
    (NormalizeTitle b = NormalizeTitle a ->
     body env ctx cutoff languages m b marks2 seen2 w2
       = (w2, Done (Purge DupTitle, marks2 ++ [b], seen2)))
    /\ (NormalizeTitle b ∉ titles_seen seen2 ->
        permalink b = permalink a ->
        body env ctx cutoff languages m b marks2 seen2 w2
          = (w2, Done (Purge DupPermalink, marks2 ++ [b], seen2))).
Proof.
  intros Hd Hb seen2 m b marks2 w2 [Ht Hp].
  apply body_seen in Hb. subst seen1. unfold note_seen in Ht, Hp.
  rewrite Hd in Ht, Hp. simpl in Ht, Hp. split.
  - intros Heq. apply body_DupTitle. repeat split; try assumption.
    apply Ht. rewrite Heq. set_solver.
  - intros Hnew Heq. apply body_DupPermalink. repeat split; try assumption.
    apply Hp. rewrite Heq. set_solver.
Qed.

(** After [A] ("Cats", http://x/1) is kept: [B] ("cats!") has its title,
    [C] ("Dogs", http://x/1) has its permalink. *)
Lemma X4_sample_duplicates :
  body Sample.env Sample.only_dedup None ∅ 1 Sample.B []
    (mkDedup {["cats"]} {[Some "http://x/1"]}) Sample.w0
  = (Sample.w0,
     Done (Purge DupTitle, [] ++ [Sample.B],
           mkDedup {["cats"]} {[Some "http://x/1"]}))
  /\ body Sample.env Sample.only_dedup None ∅ 0 Sample.C []
       (mkDedup {["cats"]} {[Some "http://x/1"]}) Sample.w0
     = (Sample.w0,
        Done (Purge DupPermalink, [] ++ [Sample.C],
              mkDedup {["cats"]} {[Some "http://x/1"]})).
Proof.
  assert (Hkeep :
    body Sample.env Sample.only_dedup None ∅ 0 Sample.A [] Sample.no_seen
      Sample.w0
    = (Sample.w0, Done (Keep, [], mkDedup {["cats"]} {[Some "http://x/1"]})))
    by (vm_compute; reflexivity).
  assert (Hsub : seen_subseteq (mkDedup {["cats"]} {[Some "http://x/1"]})
                   (mkDedup {["cats"]} {[Some "http://x/1"]}))
    by (split; reflexivity).
  split.
  - apply (proj1 (X4_later_duplicate_is_purged Sample.env Sample.only_dedup
                    None ∅ 0 Sample.A [] Sample.no_seen Sample.w0 Sample.w0
                    [] _ eq_refl Hkeep _ 1%nat Sample.B [] Sample.w0 Hsub)).
    reflexivity.
  - apply (proj2 (X4_later_duplicate_is_purged Sample.env Sample.only_dedup
                    None ∅ 0 Sample.A [] Sample.no_seen Sample.w0 Sample.w0
                    [] _ eq_refl Hkeep _ 0%nat Sample.C [] Sample.w0 Hsub)).
    + apply (bool_decide_unpack _). vm_compute. exact I.
    + reflexivity.
Defined.

(** ** The language rule *)

Section LanguageRule.

Variable env : Env.
Variable ctx : Config.
Variable cutoff : option Z.
Variable languages : gset string.
Variable n : nat.
Variable story : Story.
Variable seen : Dedup.

(** The rules that have passed can be dropped from the front of the
    chain. *)
Lemma first_match_skip pre rules w w1 :
  all_pass env ctx cutoff languages n story seen pre w w1 ->
  first_match env ctx cutoff languages n story seen (pre ++ rules) w
  = first_match env ctx cutoff languages n story seen rules w1.
Proof.
  revert w. induction pre as [|r pre IH]; intros w; simpl.
  - intros ->. reflexivity.
  - intros (w2 & Hc & Hp). unfold bind. rewrite Hc. apply IH, Hp.
Qed.

(** The test of the cap rule. *)
Lemma check_FeedCap w :
  rule_matches env ctx cutoff languages n story seen FeedCap w =
    (w, Done match max_stories_per_feed ctx with
            | Some m => (0 <? m) && (m <=? Z.of_nat n)
            | None => false
            end).
Proof.
  unfold rule_matches. destruct (max_stories_per_feed ctx); reflexivity.
Qed.

End LanguageRule.

(** X5: with a language given, a story that the four rules before have
    let pass is shown to the detector once, by its title as it is (the
    story id when there is no title), and the iteration ends as the
    detector answers: kept if the language is one of the languages
    given, purged by the language rule if it is another, and with the
    detector's exception if it raises one. *)
Theorem X5_language_rule (env : Env) (ctx : Config) (cutoff : option Z)
    (languages : gset string) (n : nat) (story : Story)
    (marks : list Story) (seen : Dedup) (w w1 : World) :
  languages <> ∅ ->
  dedup_pass ctx story seen ->
  rule_matches env ctx cutoff languages n story seen AgeCutoff w
    = (w1, Done false) ->
  (forall m, max_stories_per_feed ctx = Some m -> 0 < m -> Z.of_nat n < m) ->
  body env ctx cutoff languages n story marks seen w =
    (mkWorld (clock_reads w1) (S (detect_calls w1)) (requests w1),
     match detect env (detect_calls w1)
             (match story_title story with
              | Some t => t
              | None => story_id story
              end) with
     | Ok lang =>
         if bool_decide (lang ∈ languages)
         then Done (Keep, marks, note_seen ctx story seen)
         else Done (Purge Language, marks ++ [story], seen)
     | Error e => Raised e
     end).
Proof.
  intros Hl Hd Ha Hcap. rewrite body_triage. unfold triage, bind.
  change rule_order
    with ([DupTitle; DupPermalink; AgeCutoff; FeedCap] ++ [Language]).
  rewrite (first_match_skip env ctx cutoff languages n story seen
             [DupTitle; DupPermalink; AgeCutoff; FeedCap] [Language] w w1).
  - cbn [first_match rule_matches]. unfold bind.
    rewrite bool_decide_eq_false_2 by exact Hl.
    unfold GetLanguage, lift, ret, raise, title.
    destruct (detect env (detect_calls w1) _) as [lang|e]; [|reflexivity].
    rewrite bool_decide_not.
    destruct (bool_decide (lang ∈ languages)); reflexivity.
  - change [DupTitle; DupPermalink; AgeCutoff; FeedCap]
      with ([DupTitle; DupPermalink] ++ [AgeCutoff; FeedCap]).
    apply pass_app. exists w. split; [apply pass_dedup; auto|].
    exists w1. split; [exact Ha|].
    exists w1. split; [|reflexivity].
    rewrite check_FeedCap. do 2 f_equal.
    destruct (max_stories_per_feed ctx) as [m|]; [|reflexivity].
    destruct (Z.ltb_spec 0 m); [|reflexivity].
    specialize (Hcap m eq_refl). simpl. lia.
Qed.

(** The sample detector takes every title for English: with French as
    the only language given, [A] is purged by the language rule after
    one call of the detector; with English it is kept. *)
Lemma X5_sample_french_only :
  body Sample.env (mkConfig false None None (Some ["fr"])) None {["fr"]} 0
    Sample.A [] Sample.no_seen Sample.w0
  = (mkWorld 0 1 [], Done (Purge Language, [Sample.A], Sample.no_seen))
  /\ body Sample.env (mkConfig false None None (Some ["en"])) None {["en"]} 0
       Sample.A [] Sample.no_seen Sample.w0
     = (mkWorld 0 1 [], Done (Keep, [], Sample.no_seen)).
Proof.
  split.
  - rewrite (X5_language_rule Sample.env
               (mkConfig false None None (Some ["fr"])) None {["fr"]} 0
               Sample.A [] Sample.no_seen Sample.w0 Sample.w0).
    + vm_compute. reflexivity.
    + apply (bool_decide_unpack _). vm_compute. exact I.
    + intros Hd. discriminate Hd.
    + reflexivity.
    + intros m Hm. discriminate Hm.
  - rewrite (X5_language_rule Sample.env
               (mkConfig false None None (Some ["en"])) None {["en"]} 0
               Sample.A [] Sample.no_seen Sample.w0 Sample.w0).
    + vm_compute. reflexivity.
    + apply (bool_decide_unpack _). vm_compute. exact I.
    + intros Hd. discriminate Hd.
    + reflexivity.
    + intros m Hm. discriminate Hm.
Defined.


(** ** What the fetch loop returns *)

Section FetchReturns.

Variable env : Env.
Variable feed : Feed.

Local Abbreviation upto := (stories_upto env feed).
Local Abbreviation reqs := (page_requests feed).

(** The loop returns only the way [fetch_loop_reaches] describes. *)
Lemma fetch_loop_Done fuel k w w' l' :
  fetch_loop env fuel feed (S k) (upto k) (sent w (reqs k)) = (w', Done l') ->
  exists K,
    (k <= K <= k + fuel)%nat
    /\ w' = sent w (reqs K) /\ l' = upto K
    /\ unread_count feed <= Z.of_nat (length (upto K))
    /\ (forall i, (k <= i < K)%nat ->
                  Z.of_nat (length (upto i)) < unread_count feed)
    /\ (forall p, (k < p <= K)%nat ->
                  exists items,
                    page_response env (feed_id feed) p = Ok items).
Proof.
  revert k. induction fuel as [|fuel IH]; intros k;
    rewrite fetch_loop_unfold;
    destruct (Z.ltb_spec (Z.of_nat (length (upto k))) (unread_count feed))
      as [Hlt|Hge]; try discriminate.
  - intros [= <- <-]. exists k. repeat split; lia.
  - unfold bind. rewrite GetStories_next.
    destruct (page_response env (feed_id feed) (S k)) as [items|e] eqn:Hp;
      [|discriminate].
    replace (upto k ++ List.filter unread items) with (upto (S k))
      by (simpl; rewrite Hp; reflexivity).
    intros H. apply IH in H as (K & HK & -> & -> & Hfull & Hless & Hok).
    exists K. repeat split; try lia; try assumption.
    + intros i Hi. destruct (Nat.eq_dec i k) as [->|Hne]; [exact Hlt|].
      apply Hless. lia.
    + intros p Hp'. destruct (Nat.eq_dec p (S k)) as [->|Hne].
      * exists items. exact Hp.
      * apply Hok. lia.
  - intros [= <- <-]. exists k. repeat split; lia.
Qed.

(** The stories of the first pages are unread stories of answers of the
    server for this feed. *)
Lemma stories_upto_from_pages k :
  Forall (fun story =>
            unread story = true
            /\ exists page items,
                 page_response env (feed_id feed) page = Ok items
                 /\ In story items)
    (upto k).
Proof.
  induction k as [|k IH]; [constructor|].
  cbn [stories_upto]. apply Forall_app. split; [exact IH|].
  destruct (page_response env (feed_id feed) (S k)) as [items|e] eqn:Hp;
    [|constructor].
  apply Forall_forall. intros story Hin.
  apply list_elem_of_In, List.filter_In in Hin as [Hin Hu].
  split; [exact Hu|]. exists (S k), items. auto.
Qed.

End FetchReturns.

(** X6: when the fetch loop of a feed returns, it has sent the requests
    for the pages 1 to K of the feed, in this order and nothing else, for
    the first K with which the unread stories of these pages are as many
    as the feed reported; it returns exactly these stories, page after
    page. So every story it hands on is unread and comes from an answer of
    the server for this feed, and the stories are at least as many as
    reported (the last page may bring more). A feed that reports no unread
    story is not asked at all. *)
Theorem X6_fetch_loop_returns (env : Env) (feed : Feed) (fuel : nat)
    (w w' : World) (feed_stories : list Story) :
  fetch_loop env fuel feed 1 [] w = (w', Done feed_stories) ->
  (exists K,
      (K <= fuel)%nat
      /\ w' = sent w (page_requests feed K)
      /\ feed_stories = stories_upto env feed K
      /\ (forall i, (i < K)%nat ->
                    Z.of_nat (length (stories_upto env feed i))
                    < unread_count feed)
      /\ (forall p, (0 < p <= K)%nat ->
                    exists items,
                      page_response env (feed_id feed) p = Ok items)
      /\ (unread_count feed <= 0 -> K = 0%nat))
  /\ unread_count feed <= Z.of_nat (length feed_stories)
  /\ Forall (fun story =>
               unread story = true
               /\ exists page items,
                    page_response env (feed_id feed) page = Ok items
                    /\ In story items)
       feed_stories.
Proof.
  intros H. rewrite <- (sent_nil w) in H at 1.
  apply (fetch_loop_Done env feed fuel 0 w) in H
    as (K & HK & -> & -> & Hfull & Hless & Hok).
  split; [|split].
  - exists K. repeat split; try lia.
    + intros i Hi. apply Hless. lia.
    + intros p Hp. apply Hok. lia.
    + intros H0. destruct K as [|K]; [reflexivity|].
      specialize (Hless 0%nat). simpl in Hless. lia.
  - exact Hfull.
  - apply stories_upto_from_pages.
Qed.

(** Feed 1 of the sample server: one request, the two stories of its
    first page. *)
Lemma X6_sample_feed1 :
  (exists K,
      (K <= 3)%nat
      /\ sent Sample.w0 [GetFeedPage "1" 1]
         = sent Sample.w0 (page_requests Sample.feed1 K)
      /\ [Sample.A; Sample.B] = stories_upto Sample.env Sample.feed1 K
      /\ (forall i, (i < K)%nat ->
                    Z.of_nat (length (stories_upto Sample.env Sample.feed1 i))
                    < unread_count Sample.feed1)
      /\ (forall p, (0 < p <= K)%nat ->
                    exists items,
                      page_response Sample.env (feed_id Sample.feed1) p
                      = Ok items)
      /\ (unread_count Sample.feed1 <= 0 -> K = 0%nat))
  /\ unread_count Sample.feed1 <= Z.of_nat (length [Sample.A; Sample.B])
  /\ Forall (fun story =>
               unread story = true
               /\ exists page items,
                    page_response Sample.env (feed_id Sample.feed1) page
                    = Ok items
                    /\ In story items)
       [Sample.A; Sample.B].
Proof.
  apply (X6_fetch_loop_returns Sample.env Sample.feed1 3 Sample.w0).
  vm_compute. reflexivity.
Defined.


(** ** What a run does to the world *)

Section Advances.

Variable languages : gset string.

Lemma advances_refl (Q : Prop) w : advances languages Q w w.
Proof.
  split; [exists []; rewrite app_nil_r; split; [reflexivity|constructor]|].
  repeat split; lia.
Qed.

Lemma advances_trans (Q : Prop) w1 w2 w3 :
  advances languages Q w1 w2 -> advances languages Q w2 w3 ->
  advances languages Q w1 w3.
Proof.
  intros ((rs1 & Hr1 & Hp1) & Hc1 & Hd1 & Hl1 & Hq1)
         ((rs2 & Hr2 & Hp2) & Hc2 & Hd2 & Hl2 & Hq2).
  split; [|repeat split].
  - exists (rs1 ++ rs2). rewrite Hr2, Hr1, app_assoc. split; [reflexivity|].
    apply Forall_app. auto.
  - lia.
  - lia.
  - intros Hl. rewrite Hl2, Hl1; auto.
  - intros Hq. rewrite Hq2, Hq1; auto.
Qed.

Lemma advances_weaken (Q Q' : Prop) w w' :
  (Q' -> Q) -> advances languages Q w w' -> advances languages Q' w w'.
Proof.
  intros HQ (Hr & Hc & Hd & Hl & Hq). repeat split; auto.
Qed.

(** Requests for pages advance the world, and leave the clock and the
    detector alone. *)
Lemma advances_sent (Q : Prop) w rs :
  Forall (fun r => is_page_request r = true) rs ->
  advances languages Q w (sent w rs).
Proof.
  intros Hrs. split; [exists rs; auto|]. simpl. repeat split; lia.
Qed.

(** A world with the same requests. *)
Lemma advances_counters (Q : Prop) w w' :
  requests w' = requests w ->
  (clock_reads w <= clock_reads w')%nat ->
  (detect_calls w <= detect_calls w')%nat ->
  (languages = ∅ -> detect_calls w' = detect_calls w) ->
  (Q -> clock_reads w' = clock_reads w) ->
  advances languages Q w w'.
Proof.
  intros Hr Hc Hd Hl Hq. split; [|auto].
  exists []. rewrite app_nil_r. split; [exact Hr|constructor].
Qed.

Variable env : Env.
Variable ctx : Config.
Variable cutoff : option Z.

(** One rule: the age rule reads the clock only for a story without a
    timestamp, and only if it is on; the language rule calls the
    detector only if a language is given. *)
Lemma rule_matches_advances n story seen r w w' o :
  rule_matches env ctx cutoff languages n story seen r w = (w', o) ->
  advances languages
    (positive_opt (max_days_old ctx) = false
     \/ truthy (story_timestamp story) = true) w w'.
Proof.
  intros H.
  pose proof (rule_matches_world env ctx cutoff languages n story seen r
                w w' o H) as (Hr & Hclock & Hdet & _ & Hcb & Hdb).
  apply advances_counters; try lia; try assumption.
  - intros Hl. destruct (decide (r = Language)) as [->|Hne];
      [|apply Hdet, Hne].
    unfold rule_matches in H.
    rewrite bool_decide_eq_true_2 in H by exact Hl.
    injection H as <- _. reflexivity.
  - intros Hq. destruct (decide (r = AgeCutoff)) as [->|Hne];
      [|apply Hclock, Hne].
    destruct Hq as [Hoff|Hts].
    + rewrite positive_opt_spec in Hoff. unfold rule_matches in H.
      destruct (max_days_old ctx) as [d|]; [rewrite Hoff in H|];
        injection H as <- _; reflexivity.
    + unfold rule_matches in H.
      destruct (max_days_old ctx) as [d|]; [destruct (0 <? d)|];
        try (injection H as <- _; reflexivity).
      apply timestamp_before_world in H as (_ & _ & H).
      rewrite Hts in H. exact H.
Qed.

Lemma first_match_advances n story seen rules w w' o :
  first_match env ctx cutoff languages n story seen rules w = (w', o) ->
  advances languages
    (positive_opt (max_days_old ctx) = false
     \/ truthy (story_timestamp story) = true) w w'.
Proof.
  revert w. induction rules as [|r rules IH]; intros w.
  - intros [= <- _]. apply advances_refl.
  - rewrite first_match_cons.
    destruct (rule_matches _ _ _ _ _ _ _ r w) as [w1 [[]| |]] eqn:Hc;
      apply rule_matches_advances in Hc.
    + intros [= <- _]. exact Hc.
    + intros H. apply IH in H. eapply advances_trans; eassumption.
    + intros [= <- _]. exact Hc.
    + intros [= <- _]. exact Hc.
Qed.

(** An iteration over a story, however it ends. *)
Lemma body_advances n story marks seen w w' o :
  body env ctx cutoff languages n story marks seen w = (w', o) ->
  advances languages
    (positive_opt (max_days_old ctx) = false
     \/ truthy (story_timestamp story) = true) w w'.
Proof.
  rewrite body_triage. unfold triage, bind.
  destruct (first_match _ _ _ _ _ _ _ _ w) as [w1 [[r|]| |]] eqn:Hf;
    apply first_match_advances in Hf; unfold ret;
    intros [= <- _]; exact Hf.
Qed.

Lemma for_stories_advances stories n marks seen w w' o :
  for_stories env ctx cutoff languages n stories marks seen w = (w', o) ->
  advances languages
    (positive_opt (max_days_old ctx) = false
     \/ Forall (fun story => truthy (story_timestamp story) = true) stories)
    w w'.
Proof.
  revert n marks seen w.
  induction stories as [|story rest IH]; intros n marks seen w.
  - intros [= <- _]. apply advances_refl.
  - cbn [for_stories]. unfold bind at 1.
    destruct (body _ _ _ _ _ _ _ _ w) as [w1 [r| |]] eqn:Hb;
      apply body_advances in Hb;
      apply (advances_weaken _
               (positive_opt (max_days_old ctx) = false
                \/ Forall (fun s => truthy (story_timestamp s) = true)
                     (story :: rest))) in Hb;
      try (intros [Hoff|Hall];
           [left; exact Hoff|right; apply (Forall_inv Hall)]).
    + intros H. apply IH in H.
      apply (advances_weaken _
               (positive_opt (max_days_old ctx) = false
                \/ Forall (fun s => truthy (story_timestamp s) = true)
                     (story :: rest))) in H;
        [|intros [Hoff|Hall];
          [left; exact Hoff|right; apply (Forall_inv_tail Hall)]].
      eapply advances_trans; eassumption.
    + intros [= <- _]. exact Hb.
    + intros [= <- _]. exact Hb.
Qed.

(** The fetch loop sends requests for pages and does nothing else. *)
Lemma fetch_loop_sent fuel feed page feed_stories w w' o :
  fetch_loop env fuel feed page feed_stories w = (w', o) ->
  exists rs,
    w' = sent w rs /\ Forall (fun r => is_page_request r = true) rs.
Proof.
  revert page feed_stories w.
  induction fuel as [|fuel IH]; intros page feed_stories w;
    rewrite fetch_loop_unfold;
    destruct (Z.of_nat (length feed_stories) <? unread_count feed);
    try (intros [= <- _]; exists []; rewrite sent_nil;
         split; [reflexivity|constructor]).
  unfold bind at 1, GetStories, bind, Request_, lift, ret, raise.
  destruct (page_response env (feed_id feed) page) as [items|e].
  - intros H. apply IH in H as (rs & -> & Hrs).
    exists (GetFeedPage (feed_id feed) page :: rs).
    split; [|constructor; [reflexivity|exact Hrs]].
    unfold sent. simpl. rewrite <- app_assoc. reflexivity.
  - intros [= <- _]. exists [GetFeedPage (feed_id feed) page].
    split; [reflexivity|repeat constructor].
Qed.

(** The stories a feed brings are served stories. *)
Lemma fetch_loop_served fuel feed w w' l :
  fetch_loop env fuel feed 1 [] w = (w', Done l) ->
  Forall (fun story => unread story = true /\ served env story) l.
Proof.
  intros H. rewrite <- (sent_nil w) in H at 1.
  apply (fetch_loop_Done env feed fuel 0 w) in H as (K & _ & _ & -> & _).
  eapply Forall_impl; [apply stories_upto_from_pages|].
  intros story (Hu & page & items & Hp & Hin).
  split; [exact Hu|]. exists (feed_id feed), page, items. auto.
Qed.

(** One feed, however its iteration ends. *)
Lemma process_feed_advances fuel feed all seen w w' o :
  process_feed env ctx fuel cutoff languages feed all seen w = (w', o) ->
  advances languages
    (positive_opt (max_days_old ctx) = false \/ timestamps_given env) w w'.
Proof.
  rewrite process_feed_eq.
  destruct (fetch_loop env fuel feed 1 [] w) as [w1 [l| |]] eqn:Hf.
  - pose proof (fetch_loop_served _ _ _ _ _ Hf) as Hl.
    apply fetch_loop_sent in Hf as (rs & -> & Hrs).
    destruct (for_stories _ _ _ _ _ _ _ _ _) as [w2 [r| |]] eqn:Hs;
      apply for_stories_advances in Hs;
      apply (advances_weaken _
               (positive_opt (max_days_old ctx) = false
                \/ timestamps_given env)) in Hs;
      try (intros [Hoff|Hts];
           [left; exact Hoff
           |right; eapply Forall_impl; [exact Hl|];
            intros story [_ Hserved]; apply Hts, Hserved]);
      intros [= <- _];
      (eapply advances_trans; [apply advances_sent, Hrs|exact Hs]).
  - apply fetch_loop_sent in Hf as (rs & -> & Hrs).
    intros [= <- _]. apply advances_sent, Hrs.
  - apply fetch_loop_sent in Hf as (rs & -> & Hrs).
    intros [= <- _]. apply advances_sent, Hrs.
Qed.

Lemma for_feeds_advances fuel feeds all seen w w' o :
  for_feeds env ctx fuel cutoff languages feeds all seen w = (w', o) ->
  advances languages
    (positive_opt (max_days_old ctx) = false \/ timestamps_given env) w w'.
Proof.
  revert all seen w. induction feeds as [|feed rest IH]; intros all seen w.
  - intros [= <- _]. apply advances_refl.
  - cbn [for_feeds]. unfold bind at 1.
    destruct (process_feed _ _ _ _ _ _ _ _ w) as [w1 [r| |]] eqn:Hp;
      apply process_feed_advances in Hp.
    + intros H. apply IH in H. eapply advances_trans; eassumption.
    + intros [= <- _]. exact Hp.
    + intros [= <- _]. exact Hp.
Qed.

End Advances.


(** ** A whole run *)

Section WholeRun.

Variable env : Env.
Variable ctx : Config.

(** The cutoff costs one reading of the clock, if [max_days_old] is
    given and not [0], and none otherwise. *)
Lemma compute_cutoff_world w w' o :
  compute_cutoff env ctx w = (w', o) ->
  w' = mkWorld (if int_truthy (max_days_old ctx)
                then S (clock_reads w) else clock_reads w)
         (detect_calls w) (requests w).
Proof.
  unfold compute_cutoff.
  destruct (max_days_old ctx) as [d|];
    [|intros [= <- _]; destruct w; reflexivity].
  destruct (int_truthy (Some d));
    [|intros [= <- _]; destruct w; reflexivity].
  unfold bind, now, lift, ret, raise.
  destruct (timedelta_days d) as [delta|]; [|intros [= <- _]; reflexivity].
  destruct (datetime_sub _ delta); intros [= <- _]; reflexivity.
Qed.

Lemma int_truthy_positive (o : option Z) :
  int_truthy o = false -> positive_opt o = false.
Proof.
  destruct o as [d|]; [|reflexivity]. unfold int_truthy, positive_opt.
  intros ->. reflexivity.
Qed.

(** The run up to the end of the loop over the feeds: the login, then
    the request for the feeds, then requests for pages. *)
Lemma main_feeds_world fuel w w' o :
  main_feeds env ctx fuel w = (w', o) ->
  (exists rest,
      requests w' = requests w ++ Login :: rest
      /\ ((rest = [] /\ exists e, o = Raised e)
          \/ exists pages,
               rest = GetFeedsRequest :: pages
               /\ Forall (fun r => is_page_request r = true) pages)
      /\ (forall e, login_response env = Error e ->
                    rest = [] /\ o = Raised e)
      /\ (forall u e, login_response env = Ok u ->
                      feeds_response env = Error e ->
                      rest = [GetFeedsRequest] /\ o = Raised e))
  /\ (detect_calls w <= detect_calls w')%nat
  /\ (languages_of ctx = ∅ -> detect_calls w' = detect_calls w)
  /\ (clock_reads w <= clock_reads w')%nat
  /\ (int_truthy (max_days_old ctx) = false ->
      clock_reads w' = clock_reads w)
  /\ (positive_opt (max_days_old ctx) = false \/ timestamps_given env ->
      (clock_reads w' <= S (clock_reads w))%nat).
Proof.
  unfold main_feeds, bind at 1 2 3.
  unfold Request_ at 1, GetFeeds, bind, Request_, lift, ret, raise.
  destruct (login_response env) as [u|e1].
  2:{ intros [= <- <-]. simpl. split; [|repeat split; lia].
      exists []. split; [reflexivity|]. split; [left; eauto|].
      split; [intros e [= <-]; auto|intros u e [=]]. }
  simpl. destruct (feeds_response env) as [items|e2].
  2:{ intros [= <- <-]. simpl. split; [|repeat split; lia].
      exists [GetFeedsRequest]. rewrite <- app_assoc.
      split; [reflexivity|]. split.
      - right. exists []. split; [reflexivity|constructor].
      - split; [intros e [=]|intros u' e _ [= <-]; auto]. }
  simpl.
  destruct (compute_cutoff env ctx _) as [w1 [c| |]] eqn:Hc;
    apply compute_cutoff_world in Hc; simpl in Hc.
  - intros H. apply for_feeds_advances in H
      as ((rs & Hr & Hrs) & Hclock & Hdet & Hlang & Hquiet).
    subst w1. simpl in *. split; [|repeat split].
    + exists (GetFeedsRequest :: rs). rewrite Hr, <- !app_assoc.
      split; [reflexivity|]. split; [right; exists rs; auto|].
      split; [intros e [=]|intros u' e _ [=]].
    + lia.
    + exact Hlang.
    + destruct (int_truthy (max_days_old ctx)); lia.
    + intros Hoff. rewrite Hoff in *.
      apply Hquiet. left. apply int_truthy_positive, Hoff.
    + intros Hq. rewrite (Hquiet Hq).
      destruct (int_truthy (max_days_old ctx)); lia.
  - intros [= <- <-]. subst w1. simpl. split; [|repeat split; try lia].
    + exists [GetFeedsRequest]. rewrite <- app_assoc.
      split; [reflexivity|]. split.
      * right. exists []. split; [reflexivity|constructor].
      * split; [intros e' [=]|intros u' e' _ [=]].
    + destruct (int_truthy (max_days_old ctx)); lia.
    + intros ->. reflexivity.
    + intros _. destruct (int_truthy (max_days_old ctx)); lia.
  - intros [= <- <-]. subst w1. simpl. split; [|repeat split; try lia].
    + exists [GetFeedsRequest]. rewrite <- app_assoc.
      split; [reflexivity|]. split.
      * right. exists []. split; [reflexivity|constructor].
      * split; [intros e' [=]|intros u' e' _ [=]].
    + destruct (int_truthy (max_days_old ctx)); lia.
    + intros ->. reflexivity.
    + intros _. destruct (int_truthy (max_days_old ctx)); lia.
Qed.

(** The end of the run changes the requests only. *)
Lemma main_world fuel w w' o :
  main env ctx fuel w = (w', o) ->
  exists w1 o1 marks,
    main_feeds env ctx fuel w = (w1, o1)
    /\ w' = sent w1 marks
    /\ (marks = [] \/ exists hs, marks = [MarkStoriesAsReadRequest hs])
    /\ (forall e, o1 = Raised e -> marks = [] /\ o = Raised e).
Proof.
  rewrite main_eq.
  destruct (main_feeds env ctx fuel w) as [w1 [[all seen]| |]] eqn:Hf.
  - destruct all as [|story all].
    + intros [= <- <-]. exists w1, (Done ([], seen)), [].
      rewrite sent_nil. repeat split; auto; discriminate.
    + intros [= <- <-].
      exists w1, (Done (story :: all, seen)),
        [MarkStoriesAsReadRequest (hash <$> story :: all)].
      repeat split; eauto; discriminate.
  - intros [= <- <-]. exists w1, (Raised e), []. rewrite sent_nil.
    repeat split; auto; congruence.
  - intros [= <- <-]. exists w1, OutOfFuel, []. rewrite sent_nil.
    repeat split; auto; discriminate.
Qed.

Lemma purged_of_Forall (P : Story -> Prop) stories vs :
  Forall P stories -> Forall P (purged_of stories vs).
Proof.
  intros H. revert vs. induction H as [|story rest Hs Hrest IH];
    intros [|[r|] vs]; simpl; try constructor; auto.
Qed.

(** What the loop over the feeds collects is made of unread stories
    that the server has answered with. *)
Lemma for_stories_Forall (P : Story -> Prop) cutoff languages
    stories n marks seen w w' marks' seen' :
  Forall P marks -> Forall P stories ->
  for_stories env ctx cutoff languages n stories marks seen w
    = (w', Done (marks', seen')) ->
  Forall P marks'.
Proof.
  intros Hm Hs H. apply for_stories_seen in H as (vs & _ & _ & -> & _).
  apply Forall_app. split; [exact Hm|].
  apply purged_of_Forall, Hs.
Qed.

Lemma for_feeds_served cutoff languages fuel feeds all seen w w' all' seen' :
  Forall (fun story => unread story = true /\ served env story) all ->
  for_feeds env ctx fuel cutoff languages feeds all seen w
    = (w', Done (all', seen')) ->
  Forall (fun story => unread story = true /\ served env story) all'.
Proof.
  revert all seen w. induction feeds as [|feed rest IH]; intros all seen w Ha.
  - intros [= _ <- _]. exact Ha.
  - cbn [for_feeds]. unfold bind at 1. rewrite process_feed_eq.
    destruct (fetch_loop env fuel feed 1 [] w) as [w1 [l| |]] eqn:Hf;
      try discriminate.
    apply fetch_loop_served in Hf.
    destruct (for_stories _ _ _ _ _ _ _ _ w1) as [w2 [[m s]| |]] eqn:Hs;
      try discriminate.
    eapply for_stories_Forall in Hs; [|constructor|exact Hf].
    cbn [fst snd]. apply IH. apply Forall_app. auto.
Qed.

Lemma main_feeds_served fuel w w' all seen :
  main_feeds env ctx fuel w = (w', Done (all, seen)) ->
  Forall (fun story => unread story = true /\ served env story) all.
Proof.
  unfold main_feeds, bind at 1 2 3.
  unfold Request_ at 1, GetFeeds, bind, Request_, lift, ret, raise.
  destruct (login_response env); [|discriminate]. simpl.
  destruct (feeds_response env) as [items|]; [|discriminate]. simpl.
  destruct (compute_cutoff env ctx _) as [w1 [c| |]]; try discriminate.
  apply for_feeds_served. constructor.
Qed.

End WholeRun.

(** X7: a run without [--language] never calls the language detector,
    however it ends. *)
Theorem X7_no_language_no_detector (env : Env) (ctx : Config) (fuel : nat)
    (w : World) :
  languages_of ctx = ∅ ->
  detect_calls (main env ctx fuel w).1 = detect_calls w.
Proof.
  intros Hl. destruct (main env ctx fuel w) as [w' o] eqn:Hm.
  apply main_world in Hm as (w1 & o1 & marks & Hf & -> & _).
  apply main_feeds_world in Hf as (_ & _ & Hlang & _).
  simpl. apply Hlang, Hl.
Qed.

(** The run with deduplication alone on the sample server. *)
Lemma X7_sample_no_language :
  detect_calls (main Sample.env Sample.only_dedup 5 Sample.w0).1
  = detect_calls Sample.w0.
Proof.
  apply (X7_no_language_no_detector Sample.env Sample.only_dedup 5 Sample.w0).
  reflexivity.
Defined.

(** X8: a run reads the clock for the cutoff, once, when [--max_days_old]
    is given and not 0, and besides only for a story without a timestamp
    entry under a positive [--max_days_old]. So without that option, or
    with 0, the clock is never read; and with a non-positive value, or
    on a server whose stories all have a timestamp, it is read at most
    once. *)
Theorem X8_clock_readings (env : Env) (ctx : Config) (fuel : nat) (w : World) :
  (clock_reads w <= clock_reads (main env ctx fuel w).1)%nat
  /\ (int_truthy (max_days_old ctx) = false ->
      clock_reads (main env ctx fuel w).1 = clock_reads w)
  /\ (positive_opt (max_days_old ctx) = false \/ timestamps_given env ->
      (clock_reads (main env ctx fuel w).1 <= S (clock_reads w))%nat).
Proof.
  destruct (main env ctx fuel w) as [w' o] eqn:Hm.
  apply main_world in Hm as (w1 & o1 & marks & Hf & -> & _).
  apply main_feeds_world in Hf as (_ & _ & _ & Hle & Hoff & Hone).
  simpl. auto.
Qed.

(** A run with deduplication alone: the clock is not read. With a cutoff
    of seven days on the sample server, whose three stories have
    timestamps: it is read once. *)
Lemma X8_sample_clock :
  clock_reads (main Sample.env Sample.only_dedup 5 Sample.w0).1
  = clock_reads Sample.w0
  /\ clock_reads (main Sample.env (Sample.only_age 7) 5 Sample.w0).1 = 1%nat.
Proof.
  split.
  - apply (proj1 (proj2 (X8_clock_readings Sample.env Sample.only_dedup 5
                           Sample.w0))).
    reflexivity.
  - vm_compute. reflexivity.
Defined.

(** X11: the requests of a run are, in this order: the login; then,
    if the login succeeded, the request for the feeds; then requests
    for pages of feeds; then at most one bulk call, which is the last
    request of the run. A failed login is the only request of its run,
    and after a failed request for the feeds no page is asked for. *)
Theorem X11_order_of_requests (env : Env) (ctx : Config) (fuel : nat)
    (w : World) :
  exists rest,
    requests (main env ctx fuel w).1 = requests w ++ Login :: rest
    /\ (rest = []
        \/ exists pages marks,
             rest = GetFeedsRequest :: pages ++ marks
             /\ Forall (fun r => is_page_request r = true) pages
             /\ (marks = [] \/ exists hs, marks = [MarkStoriesAsReadRequest hs]))
    /\ (forall e, login_response env = Error e ->
                  rest = [] /\ (main env ctx fuel w).2 = Raised e)
    /\ (forall u e, login_response env = Ok u ->
                    feeds_response env = Error e ->
                    rest = [GetFeedsRequest]
                    /\ (main env ctx fuel w).2 = Raised e).
Proof.
  destruct (main env ctx fuel w) as [w' o] eqn:Hm.
  apply main_world in Hm as (w1 & o1 & marks & Hf & -> & Hmarks & Hraised).
  apply main_feeds_world in Hf
    as ((rest & Hr & Hshape & Hlogin & Hfeeds) & _).
  simpl. exists (rest ++ marks). rewrite Hr, <- app_assoc. simpl.
  split; [reflexivity|]. split; [|split].
  - destruct Hshape as [(-> & e & ->) | (pages & -> & Hpages)].
    + destruct (Hraised e eq_refl) as [-> _]. left. reflexivity.
    + right. exists pages, marks. simpl. auto.
  - intros e He. destruct (Hlogin e He) as [-> ->].
    destruct (Hraised e eq_refl) as [-> ->]. auto.
  - intros u e Hu He. destruct (Hfeeds u e Hu He) as [-> ->].
    destruct (Hraised e eq_refl) as [-> ->]. auto.
Qed.


(** ** Options that ask for nothing *)

Section NoRule.

Variable env : Env.
Variable ctx : Config.

Lemma body_no_rule cutoff n story marks seen w :
  no_rule_enabled ctx ->
  body env ctx cutoff (languages_of ctx) n story marks seen w
  = (w, Done (Keep, marks, seen)).
Proof.
  intros (Hd & Ha & Hc & Hl). unfold body. rewrite Hd, Ha, Hc, Hl.
  unfold bind, ret. simpl. reflexivity.
Qed.

Lemma for_stories_no_rule cutoff stories n marks seen w :
  no_rule_enabled ctx ->
  for_stories env ctx cutoff (languages_of ctx) n stories marks seen w
  = (w, Done (marks, seen)).
Proof.
  intros Hno. revert n.
  induction stories as [|story rest IH]; intros n; [reflexivity|].
  cbn [for_stories]. unfold bind. rewrite body_no_rule by exact Hno.
  apply IH.
Qed.

Lemma for_feeds_no_rule cutoff fuel feeds all seen w w' all' seen' :
  no_rule_enabled ctx ->
  for_feeds env ctx fuel cutoff (languages_of ctx) feeds all seen w
    = (w', Done (all', seen')) ->
  all' = all /\ seen' = seen.
Proof.
  intros Hno. revert w. induction feeds as [|feed rest IH]; intros w.
  - intros [= _ <- <-]. auto.
  - cbn [for_feeds]. unfold bind at 1. rewrite process_feed_eq.
    destruct (fetch_loop env fuel feed 1 [] w) as [w1 [l| |]];
      try discriminate.
    rewrite for_stories_no_rule by exact Hno. cbn [fst snd].
    rewrite app_nil_r. apply IH.
Qed.

Lemma main_feeds_no_rule fuel w w' all seen :
  no_rule_enabled ctx ->
  main_feeds env ctx fuel w = (w', Done (all, seen)) ->
  all = [].
Proof.
  intros Hno. unfold main_feeds, bind at 1 2 3.
  unfold Request_ at 1, GetFeeds, bind, Request_, lift, ret, raise.
  destruct (login_response env); [|discriminate]. simpl.
  destruct (feeds_response env) as [items|]; [|discriminate]. simpl.
  destruct (compute_cutoff env ctx _) as [w1 [c| |]]; try discriminate.
  intros H. apply for_feeds_no_rule in H as [-> _]; auto.
Qed.

End NoRule.

(** X10: when the command line asks for no purge (no [--deduplicate], no
    [--language], and [--max_days_old] and [--max_stories_per_feed] each
    absent, 0 or negative), every story is kept, at no cost (the clock
    and the detector are left alone), and the run sends no bulk call:
    if it returns, it returns the empty list. *)
Theorem X10_no_option_no_purge (env : Env) (ctx : Config) :
  no_rule_enabled ctx ->
  (forall cutoff n story marks seen w,
      body env ctx cutoff (languages_of ctx) n story marks seen w
      = (w, Done (Keep, marks, seen)))
  /\ (forall fuel w,
         mark_requests (requests (main env ctx fuel w).1)
         = mark_requests (requests w)
         /\ (forall all, (main env ctx fuel w).2 = Done all -> all = [])).
Proof.
  intros Hno. split; [intros; apply body_no_rule, Hno|].
  intros fuel w. rewrite main_eq.
  destruct (main_feeds env ctx fuel w) as [w1 [[all seen]| |]] eqn:Hf.
  - pose proof (main_feeds_no_rule env ctx fuel w w1 all seen Hno Hf) as ->.
    apply main_feeds_marks in Hf. simpl. split; [exact Hf|].
    intros all [= <-]. reflexivity.
  - apply main_feeds_marks in Hf. simpl. split; [exact Hf|discriminate].
  - apply main_feeds_marks in Hf. simpl. split; [exact Hf|discriminate].
Qed.

(** The options [--max_days_old 0 --max_stories_per_feed -3], and a list
    of languages that is empty: the sample run sends no bulk call. *)
Lemma X10_sample_zero_and_negative :
  mark_requests
    (requests
       (main Sample.env (mkConfig false (Some 0) (Some (-3)) (Some [])) 5
          Sample.w0).1)
  = mark_requests (requests Sample.w0)
  /\ (forall all,
         (main Sample.env (mkConfig false (Some 0) (Some (-3)) (Some [])) 5
            Sample.w0).2 = Done all ->
         all = []).
Proof.
  assert (Hno : no_rule_enabled
                  (mkConfig false (Some 0) (Some (-3)) (Some [])))
    by (repeat split).
  apply (proj2 (X10_no_option_no_purge Sample.env
                  (mkConfig false (Some 0) (Some (-3)) (Some [])) Hno)).
Defined.

(** ** Options that are not positive *)

(** X13: a [--max_days_old] that is 0 or negative does not change any
    decision: every iteration ends as it does without the option,
    whatever the cutoff is. The same holds for a [--max_stories_per_feed]
    that is 0 or negative. *)
Theorem X13_non_positive_option_is_off (env : Env) (ctx : Config)
    (cutoff cutoff' : option Z) (languages : gset string) (n : nat)
    (story : Story) (marks : list Story) (seen : Dedup) (w : World) :
  (forall d, max_days_old ctx = Some d -> d <= 0 ->
             body env ctx cutoff languages n story marks seen w
             = body env (without_max_days_old ctx) cutoff' languages n story
                 marks seen w)
  /\ (forall m, max_stories_per_feed ctx = Some m -> m <= 0 ->
                body env ctx cutoff languages n story marks seen w
                = body env (without_max_stories_per_feed ctx) cutoff
                    languages n story marks seen w).
Proof.
  split.
  - intros d Hd H0. unfold body, without_max_days_old. simpl. rewrite Hd.
    assert (Hp : positive_opt (Some d) = false).
    { rewrite positive_opt_spec. lia. }
    rewrite Hp. reflexivity.
  - intros m Hm H0. unfold body, without_max_stories_per_feed. simpl.
    rewrite Hm.
    assert (Hp : positive_opt (Some m) = false).
    { rewrite positive_opt_spec. lia. }
    rewrite Hp. reflexivity.
Qed.

(** [B] after [A], with deduplication and [--max_days_old -2]: purged
    as a duplicate, as without the option. *)
Lemma X13_sample_negative_days :
  body Sample.env (Sample.dedup_and_age (-2)) (Some Sample.T0) ∅ 1 Sample.B
    [] (mkDedup {["cats"]} ∅) Sample.w0
  = body Sample.env (without_max_days_old (Sample.dedup_and_age (-2))) None
      ∅ 1 Sample.B [] (mkDedup {["cats"]} ∅) Sample.w0.
Proof.
  apply (proj1 (X13_non_positive_option_is_off Sample.env
                  (Sample.dedup_and_age (-2)) (Some Sample.T0) None ∅ 1
                  Sample.B [] (mkDedup {["cats"]} ∅) Sample.w0) (-2)).
  - reflexivity.
  - lia.
Defined.

(** ** The cap, feed by feed *)

(** X12: with the cap as the only option, every feed is cut on its own:
    the run adds to [all_stories_to_mark] the stories the feed brought
    without the first [m] of them, whatever the feeds before have
    brought, kept or purged. *)
Theorem X12_cap_counts_per_feed (env : Env) (ctx : Config) (m : Z)
    (fuel : nat) (cutoff : option Z) (feed : Feed) (all : list Story)
    (seen : Dedup) (w : World) :
  deduplicate ctx = false ->
  max_days_old ctx = None ->
  max_stories_per_feed ctx = Some m ->
  0 < m ->
  process_feed env ctx fuel cutoff ∅ feed all seen w =
    match fetch_loop env fuel feed 1 [] w with
    | (w1, Done feed_stories) =>
        (w1, Done (all ++ drop (Z.to_nat m) feed_stories, seen))
    | (w1, Raised e) => (w1, Raised e)
    | (w1, OutOfFuel) => (w1, OutOfFuel)
    end.
Proof.
  intros Hd Ha Hm H0. rewrite process_feed_eq.
  destruct (fetch_loop env fuel feed 1 [] w) as [w1 [l| |]]; try reflexivity.
  rewrite (for_stories_only_cap env ctx cutoff m) by assumption.
  rewrite Nat.sub_0_r. reflexivity.
Qed.

(** A cap of 1 on feed 1 of the sample server, after another feed has
    put [C] on the list: [A] stays, [B] is added. *)
Lemma X12_sample_cap_of_one :
  process_feed Sample.env (Sample.only_cap 1) 5 None ∅ Sample.feed1
    [Sample.C] Sample.no_seen Sample.w0
  = (sent Sample.w0 [GetFeedPage "1" 1],
     Done ([Sample.C; Sample.B], Sample.no_seen)).
Proof.
  rewrite (X12_cap_counts_per_feed Sample.env (Sample.only_cap 1) 1 5 None
             Sample.feed1 [Sample.C] Sample.no_seen Sample.w0).
  - vm_compute. reflexivity.
  - reflexivity.
  - reflexivity.
  - reflexivity.
  - lia.
Defined.


(** ** What a run marks, and what it asks for *)

(** X15: whatever a run asks the server to mark as read is the list of
    the hashes of stories that answers of the server to requests for
    pages held, and that these answers held as unread; the list is never
    empty. The list the run returns is the list of these stories. *)
Theorem X15_marks_only_served_unread (env : Env) (ctx : Config) (fuel : nat)
    (w : World) :
  (forall hs,
      In hs (mark_requests (requests (main env ctx fuel w).1)) ->
      In hs (mark_requests (requests w))
      \/ exists all,
           hs = hash <$> all /\ all <> []
           /\ Forall (fun story => unread story = true /\ served env story)
                all)
  /\ (forall all,
         (main env ctx fuel w).2 = Done all ->
         Forall (fun story => unread story = true /\ served env story) all).
Proof.
  rewrite main_eq.
  destruct (main_feeds env ctx fuel w) as [w1 [[all seen]| |]] eqn:Hf.
  - pose proof (main_feeds_served env ctx fuel w w1 all seen Hf) as Hall.
    apply main_feeds_marks in Hf.
    destruct all as [|story all]; simpl.
    + split; [|intros all [= <-]; constructor].
      intros hs Hin. left. rewrite <- Hf. exact Hin.
    + split.
      * intros hs Hin. rewrite mark_requests_app, Hf in Hin.
        apply in_app_or in Hin as [Hin|Hin]; [left; exact Hin|].
        right. destruct Hin as [<-|[]].
        exists (story :: all). split; [reflexivity|]. split; [discriminate|].
        exact Hall.
      * intros all'. destruct (mark_response env _); [|discriminate].
        intros [= <-]. exact Hall.
  - apply main_feeds_marks in Hf. simpl. split; [|discriminate].
    intros hs Hin. left. rewrite <- Hf. exact Hin.
  - apply main_feeds_marks in Hf. simpl. split; [|discriminate].
    intros hs Hin. left. rewrite <- Hf. exact Hin.
Qed.

Section PagesAsked.

Variable env : Env.
Variable ctx : Config.
Variable cutoff : option Z.
Variable languages : gset string.

(** The fetch loop of a feed asks for pages of that feed. *)
Lemma fetch_loop_asks fuel feed page feed_stories w w' o :
  fetch_loop env fuel feed page feed_stories w = (w', o) ->
  exists rs,
    w' = sent w rs
    /\ Forall (fun r => exists p, r = GetFeedPage (feed_id feed) p) rs.
Proof.
  revert page feed_stories w.
  induction fuel as [|fuel IH]; intros page feed_stories w;
    rewrite fetch_loop_unfold;
    destruct (Z.of_nat (length feed_stories) <? unread_count feed);
    try (intros [= <- _]; exists []; rewrite sent_nil;
         split; [reflexivity|constructor]).
  unfold bind at 1, GetStories, bind, Request_, lift, ret, raise.
  destruct (page_response env (feed_id feed) page) as [items|e].
  - intros H. apply IH in H as (rs & -> & Hrs).
    exists (GetFeedPage (feed_id feed) page :: rs).
    split; [|constructor; [eauto|exact Hrs]].
    unfold sent. simpl. rewrite <- app_assoc. reflexivity.
  - intros [= <- _]. exists [GetFeedPage (feed_id feed) page].
    split; [reflexivity|repeat constructor; eauto].
Qed.

Lemma for_feeds_asks fuel feeds all seen w w' o :
  for_feeds env ctx fuel cutoff languages feeds all seen w = (w', o) ->
  exists rs,
    requests w' = requests w ++ rs
    /\ Forall (fun r => exists f p,
                          In f feeds /\ r = GetFeedPage (feed_id f) p) rs.
Proof.
  revert all seen w. induction feeds as [|feed rest IH]; intros all seen w.
  - intros [= <- _]. exists []. rewrite app_nil_r.
    split; [reflexivity|constructor].
  - cbn [for_feeds]. unfold bind at 1. rewrite process_feed_eq.
    assert (Hhere : forall rs,
      Forall (fun r => exists p, r = GetFeedPage (feed_id feed) p) rs ->
      Forall (fun r => exists f p,
                         In f (feed :: rest)
                         /\ r = GetFeedPage (feed_id f) p) rs).
    { intros rs Hrs. eapply Forall_impl; [exact Hrs|].
      intros r [p ->]. exists feed, p. split; [left|]; reflexivity. }
    destruct (fetch_loop env fuel feed 1 [] w) as [w1 [l| |]] eqn:Hf;
      apply fetch_loop_asks in Hf as (rs & -> & Hrs);
      try (intros [= <- _]; exists rs; split; [reflexivity|auto]).
    destruct (for_stories _ _ _ _ _ _ _ _ _) as [w2 [[m s]| |]] eqn:Hs;
      apply for_stories_requests in Hs; simpl in Hs;
      try (intros [= <- _]; exists rs; split; [exact Hs|auto]).
    intros H. apply IH in H as (rs' & Hr' & Hrs').
    exists (rs ++ rs'). rewrite Hr', Hs, app_assoc. split; [reflexivity|].
    apply Forall_app. split; [auto|].
    eapply Forall_impl; [exact Hrs'|].
    intros r (f & p & Hin & ->). exists f, p. split; [right; exact Hin|].
    reflexivity.
Qed.

End PagesAsked.

Lemma sorted_by_title_In f items :
  In f (sorted_by_title items) <-> In f items.
Proof.
  assert (Hp : Permutation (sorted_by_title items) items).
  { induction items as [|g items IH]; [reflexivity|].
    simpl. rewrite insert_sorted_perm, IH. reflexivity. }
  rewrite <- !list_elem_of_In. rewrite Hp. reflexivity.
Qed.

(** X14: a run asks for pages only of feeds that the answer to the
    request for the feeds holds and that report at least one unread
    story there; a feed that reports none is never asked for. *)
Theorem X14_pages_only_of_unread_feeds (env : Env) (ctx : Config)
    (fuel : nat) (w : World) (id : string) (page : nat) :
  In (GetFeedPage id page) (requests (main env ctx fuel w).1) ->
  In (GetFeedPage id page) (requests w)
  \/ exists items f,
       feeds_response env = Ok items /\ In f items
       /\ feed_id f = id /\ 0 < unread_count f.
Proof.
  destruct (main env ctx fuel w) as [w' o] eqn:Hm. simpl.
  apply main_world in Hm as (w1 & o1 & marks & Hf & -> & Hmarks & _).
  intros Hin. simpl in Hin. apply in_app_or in Hin as [Hin|Hin].
  2:{ destruct Hmarks as [-> | [hs ->]]; [destruct Hin|].
      destruct Hin as [Hin|[]]. discriminate Hin. }
  revert Hf Hin. unfold main_feeds, bind at 1 2 3.
  unfold Request_ at 1, GetFeeds, bind, Request_, lift, ret, raise.
  destruct (login_response env) as [u|e1].
  2:{ intros [= <- _] Hin. simpl in Hin.
      apply in_app_or in Hin as [Hin|[Hin|[]]]; [auto|discriminate]. }
  simpl. destruct (feeds_response env) as [items|e2].
  2:{ intros [= <- _] Hin. simpl in Hin.
      apply in_app_or in Hin as [Hin|[Hin|[]]]; [|discriminate].
      apply in_app_or in Hin as [Hin|[Hin|[]]]; [auto|discriminate]. }
  simpl.
  assert (Hbase : forall l,
            In (GetFeedPage id page)
              ((l ++ [Login]) ++ [GetFeedsRequest]) ->
            In (GetFeedPage id page) l).
  { intros l Hl. apply in_app_or in Hl as [Hl|[Hl|[]]]; [|discriminate].
    apply in_app_or in Hl as [Hl|[Hl|[]]]; [auto|discriminate]. }
  destruct (compute_cutoff env ctx _) as [w2 [c| |]] eqn:Hc;
    apply compute_cutoff_requests in Hc; simpl in Hc.
  - intros H Hin. apply for_feeds_asks in H as (rs & Hr & Hrs).
    rewrite Hr, Hc in Hin. apply in_app_or in Hin as [Hin|Hin];
      [left; apply Hbase, Hin|].
    right. rewrite Forall_forall in Hrs.
    apply list_elem_of_In, Hrs in Hin as (f & p & Hf & [= Hid Hp]).
    apply List.filter_In in Hf as [Hf Hu].
    apply (proj1 (sorted_by_title_In f items)) in Hf.
    exists items, f. split; [reflexivity|]. split; [exact Hf|].
    split; [congruence|lia].
  - intros [= <- _] Hin. rewrite Hc in Hin. left. apply Hbase, Hin.
  - intros [= <- _] Hin. rewrite Hc in Hin. left. apply Hbase, Hin.
Qed.

(** The sample run asks for page 1 of the feed "1", which reports two
    unread stories. *)
Lemma X14_sample_feed1 :
  In (GetFeedPage "1" 1) (requests Sample.w0)
  \/ exists items f,
       feeds_response Sample.env = Ok items /\ In f items
       /\ feed_id f = "1" /\ 0 < unread_count f.
Proof.
  apply (X14_pages_only_of_unread_feeds Sample.env Sample.only_dedup 5
           Sample.w0 "1" 1).
  vm_compute. auto.
Defined.


(** ** The normaliser on every string *)

Module RawFacts.
Import Raw.

Lemma raw_mem_punctuation (c : N) : mem c punctuation = is_ascii_punctuation c.
Proof.
  unfold is_ascii_punctuation.
  destruct (N.le_gt_cases 127 c) as [Hbig|Hsmall].
  - assert (H : mem c punctuation = false).
    { unfold punctuation. cbn [mem].
      repeat match goal with
             | |- context [(c =? ?k)%N] =>
                 destruct (N.eqb_spec c k); [lia|]
             end.
      reflexivity. }
    rewrite H. symmetry.
    rewrite !orb_false_iff, !andb_false_iff, !N.leb_gt. lia.
  - assert (Hc : exists n, (n < 127)%nat /\ c = N.of_nat n).
    { exists (N.to_nat c). split; lia. }
    destruct Hc as (n & Hn & ->).
    do 127 (destruct n as [|n]; [vm_compute; reflexivity|]). lia.
Qed.

Lemma translate_delete_app del s1 s2 :
  translate_delete del (s1 ++ s2)
  = translate_delete del s1 ++ translate_delete del s2.
Proof.
  induction s1 as [|c s1 IH]; [reflexivity|].
  simpl. destruct (mem c del); simpl; rewrite IH; reflexivity.
Qed.

Lemma translate_delete_idem del s :
  translate_delete del (translate_delete del s) = translate_delete del s.
Proof.
  induction s as [|c s IH]; [reflexivity|].
  simpl. destruct (mem c del) eqn:Hc; [exact IH|].
  simpl. rewrite Hc, IH. reflexivity.
Qed.

Lemma translate_delete_Forall (P : N -> Prop) del s :
  Forall P s -> Forall P (translate_delete del s).
Proof.
  induction 1 as [|c s Hc Hs IH]; simpl; [constructor|].
  destruct (mem c del); [exact IH|constructor; assumption].
Qed.

(** What is deleted is the class, and nothing else. *)
Lemma translate_delete_filter s :
  translate_delete punctuation s
  = List.filter (fun c => negb (is_ascii_punctuation c)) s.
Proof.
  induction s as [|c s IH]; [reflexivity|].
  cbn [translate_delete List.filter]. rewrite raw_mem_punctuation, IH.
  destruct (is_ascii_punctuation c); reflexivity.
Qed.

Section Database.

Variable ucd : UCD.

(** A string without a capital sigma is lowercased code point by code
    point. *)
Lemma lower_from_no_sigma before s :
  ~ In CAPITAL_SIGMA s ->
  lower_from ucd before s = flat_map (to_lower_full ucd) s.
Proof.
  revert before. induction s as [|c s IH]; intros before Hs; [reflexivity|].
  cbn [lower_from flat_map]. unfold lower_at.
  destruct (N.eqb_spec c CAPITAL_SIGMA) as [->|Hc];
    [exfalso; apply Hs; left; reflexivity|].
  rewrite IH; [reflexivity|]. intros Hin. apply Hs. right. exact Hin.
Qed.

(** A string of code points that are their own lowercase is its own
    lowercase. *)
Lemma lower_from_fixed before s :
  Forall (fixed_by_lower ucd) s -> lower_from ucd before s = s.
Proof.
  revert before. induction s as [|c s IH]; intros before Hs; [reflexivity|].
  inversion Hs as [|? ? [Hc Hl] Hrest]; subst.
  cbn [lower_from]. unfold lower_at.
  destruct (N.eqb_spec c CAPITAL_SIGMA) as [->|_]; [congruence|].
  rewrite Hl, IH by exact Hrest. reflexivity.
Qed.

Hypothesis database : lowercase_database ucd.

(** The lowercase of a string is made of such code points. *)
Lemma lower_from_is_fixed before s :
  Forall (fixed_by_lower ucd) (lower_from ucd before s).
Proof.
  destruct database as (_ & Hstable & Hsmall & Hfinal).
  revert before. induction s as [|c s IH]; intros before; [constructor|].
  cbn [lower_from]. apply Forall_app. split; [|apply IH].
  unfold lower_at. destruct (c =? CAPITAL_SIGMA)%N.
  - constructor; [|constructor].
    destruct (final_sigma ucd before s); assumption.
  - apply Forall_forall. intros c' Hin.
    apply (Hstable c c'), list_elem_of_In, Hin.
Qed.

Lemma normalize_is_fixed s : Forall (fixed_by_lower ucd) (normalize ucd s).
Proof.
  unfold normalize, lower. apply translate_delete_Forall, lower_from_is_fixed.
Qed.

Lemma raw_normalize_idem s : normalize ucd (normalize ucd s) = normalize ucd s.
Proof.
  unfold normalize at 1, lower.
  rewrite lower_from_fixed by apply normalize_is_fixed.
  unfold normalize. apply translate_delete_idem.
Qed.

Lemma raw_normalize_lower s : normalize ucd (lower ucd s) = normalize ucd s.
Proof.
  unfold normalize, lower.
  rewrite (lower_from_fixed [] (lower_from ucd [] s))
    by apply lower_from_is_fixed.
  reflexivity.
Qed.

(** A punctuation character is its own lowercase. *)
Lemma punctuation_to_lower c :
  mem c punctuation = true -> to_lower_full ucd c = [c].
Proof.
  destruct database as (Hascii & _).
  rewrite raw_mem_punctuation. unfold is_ascii_punctuation. intros Hc.
  rewrite !orb_true_iff, !andb_true_iff, !N.leb_le in Hc.
  rewrite Hascii by lia.
  destruct ((65 <=? c) && (c <=? 90))%N eqn:Hu; [|reflexivity].
  rewrite andb_true_iff, !N.leb_le in Hu. lia.
Qed.

Lemma translate_delete_In del c s :
  In c (translate_delete del s) -> In c s.
Proof.
  induction s as [|c' s IH]; simpl; [tauto|].
  destruct (mem c' del); simpl; tauto.
Qed.

(** Where there is no capital sigma, the punctuation of the title does
    not show in the normal form. *)
Lemma normalize_without_punctuation s :
  ~ In CAPITAL_SIGMA s ->
  normalize ucd (translate_delete punctuation s) = normalize ucd s.
Proof.
  intros Hs. unfold normalize, lower.
  rewrite !lower_from_no_sigma;
    [|exact Hs|intros Hin; apply Hs, (translate_delete_In _ _ _ Hin)].
  clear Hs. induction s as [|c s IH]; [reflexivity|].
  cbn [translate_delete flat_map].
  destruct (mem c punctuation) eqn:Hc.
  - rewrite translate_delete_app, (punctuation_to_lower c Hc).
    cbn [translate_delete]. rewrite Hc. exact IH.
  - cbn [flat_map]. rewrite !translate_delete_app, IH. reflexivity.
Qed.

(** The lowercase of an ASCII string. *)
Lemma lower_ascii s :
  Forall (fun c => (c < 128)%N) s ->
  lower ucd s
  = List.map (fun c => if ((65 <=? c) && (c <=? 90))%N
                       then (c + 32)%N else c) s.
Proof.
  destruct database as (Hascii & _). intros Hs. unfold lower.
  rewrite lower_from_no_sigma.
  - induction Hs as [|c s Hc Hs IH]; [reflexivity|].
    simpl. rewrite Hascii by exact Hc. simpl. rewrite IH. reflexivity.
  - intros Hin. rewrite Forall_forall in Hs.
    apply list_elem_of_In, Hs in Hin. unfold CAPITAL_SIGMA in Hin. lia.
Qed.

End Database.

(** Below U+0100 the normaliser is the one of the restricted model. *)
Lemma mem_code_point (a : ascii) :
  mem (N_of_ascii a) punctuation = Str.mem a Str.punctuation.
Proof. StrFacts.each_ascii a. Qed.

Lemma normalize_code_points ucd (s : string) :
  latin1_database ucd ->
  normalize ucd (code_points s) = code_points (Str.normalize s).
Proof.
  intros Hl. unfold normalize, lower, Str.normalize.
  assert (Hlow : forall before,
            lower_from ucd before (code_points s) = code_points (Str.lower s)).
  { induction s as [|a s IH]; intros before; [reflexivity|].
    unfold code_points in *. cbn [list_ascii_of_string List.map lower_from
      Str.lower]. unfold lower_at.
    destruct (N.eqb_spec (N_of_ascii a) CAPITAL_SIGMA) as [Heq|_].
    - exfalso. pose proof (N_ascii_bounded a). unfold CAPITAL_SIGMA in Heq.
      lia.
    - rewrite Hl, IH. reflexivity. }
  rewrite Hlow. generalize (Str.lower s). clear. intros s.
  induction s as [|a s IH]; [reflexivity|].
  unfold code_points in *. cbn [list_ascii_of_string List.map
    translate_delete Str.translate_delete].
  rewrite mem_code_point. destruct (Str.mem a Str.punctuation); [exact IH|].
  cbn [list_ascii_of_string List.map]. rewrite IH. reflexivity.
Qed.

End RawFacts.


(** ** The sample database *)

Lemma upper_ascii_spec c :
  MoreSamples.upper_ascii c = true <-> (65 <= c <= 90)%N.
Proof.
  unfold MoreSamples.upper_ascii. rewrite andb_true_iff, !N.leb_le.
  reflexivity.
Qed.

Lemma upper_latin1_spec c :
  MoreSamples.upper_latin1 c = true <->
  ((192 <= c <= 214) \/ (216 <= c <= 222))%N.
Proof.
  unfold MoreSamples.upper_latin1.
  rewrite orb_true_iff, !andb_true_iff, !N.leb_le. reflexivity.
Qed.

Lemma upper_greek_spec c :
  MoreSamples.upper_greek c = true <->
  ((913 <= c <= 929) \/ (931 <= c <= 939))%N.
Proof.
  unfold MoreSamples.upper_greek.
  rewrite orb_true_iff, !andb_true_iff, !N.leb_le. reflexivity.
Qed.

Lemma sample_to_lower_full c :
  Raw.to_lower_full MoreSamples.ucd c =
    if MoreSamples.upper_ascii c || MoreSamples.upper_latin1 c
       || MoreSamples.upper_greek c
    then [c + 32]%N
    else if (c =? 304)%N then [105; 775]%N else [c].
Proof. reflexivity. Qed.

(** A code point that is no capital of the sample and not U+0130 is its
    own lowercase there. *)
Lemma sample_fixed c :
  ~ (65 <= c <= 90)%N ->
  ~ ((192 <= c <= 214) \/ (216 <= c <= 222))%N ->
  ~ ((913 <= c <= 929) \/ (931 <= c <= 939))%N ->
  c <> 304%N ->
  Raw.fixed_by_lower MoreSamples.ucd c.
Proof.
  intros Ha Hl Hg Hi. split; [unfold Raw.CAPITAL_SIGMA; lia|].
  rewrite sample_to_lower_full.
  destruct (MoreSamples.upper_ascii c) eqn:H1;
    [apply upper_ascii_spec in H1; tauto|].
  destruct (MoreSamples.upper_latin1 c) eqn:H2;
    [apply upper_latin1_spec in H2; tauto|].
  destruct (MoreSamples.upper_greek c) eqn:H3;
    [apply upper_greek_spec in H3; tauto|].
  simpl. destruct (N.eqb_spec c 304); [tauto|reflexivity].
Qed.

Lemma sample_lowercase_database : Raw.lowercase_database MoreSamples.ucd.
Proof.
  split; [|split; [|split]].
  - intros c Hc. rewrite sample_to_lower_full.
    destruct (MoreSamples.upper_latin1 c) eqn:H2;
      [apply upper_latin1_spec in H2; lia|].
    destruct (MoreSamples.upper_greek c) eqn:H3;
      [apply upper_greek_spec in H3; lia|].
    rewrite !orb_false_r. fold (MoreSamples.upper_ascii c).
    destruct (MoreSamples.upper_ascii c); [reflexivity|].
    destruct (N.eqb_spec c 304); [lia|reflexivity].
  - intros c c'. rewrite sample_to_lower_full.
    destruct (MoreSamples.upper_ascii c) eqn:H1.
    { apply upper_ascii_spec in H1. intros [<-|[]].
      apply sample_fixed; lia. }
    destruct (MoreSamples.upper_latin1 c) eqn:H2.
    { apply upper_latin1_spec in H2. intros [<-|[]].
      apply sample_fixed; lia. }
    destruct (MoreSamples.upper_greek c) eqn:H3.
    { apply upper_greek_spec in H3. intros [<-|[]].
      apply sample_fixed; lia. }
    simpl. destruct (N.eqb_spec c 304) as [->|Hi].
    + intros [<-|[<-|[]]]; apply sample_fixed; lia.
    + intros [<-|[]]. apply sample_fixed.
      * intros H. apply upper_ascii_spec in H. congruence.
      * intros H. apply upper_latin1_spec in H. congruence.
      * intros H. apply upper_greek_spec in H. congruence.
      * exact Hi.
  - apply sample_fixed; unfold Raw.SMALL_SIGMA; lia.
  - apply sample_fixed; unfold Raw.FINAL_SIGMA; lia.
Qed.

Lemma sample_latin1_database : Raw.latin1_database MoreSamples.ucd.
Proof. intros a. StrFacts.each_ascii a. Qed.

(** C6, as the program has it: [Story.NormalizeTitle] reads the title of
    the story, which is the entry [story_title] if the story has one
    (whatever it is, [null] too) and the story id otherwise. If that
    value is a string, the result is the string lowercased by
    [str.lower] and then freed of the ASCII punctuation characters, and
    of nothing else: code point by code point, the lowercased string
    filtered by "is not ASCII punctuation", so blanks stay as they are and
    no code point from U+0080 on is removed; the empty title gives the
    empty string. If that value is not a string, the call raises
    [AttributeError]. On a story of the restricted model the result is
    the one of [NormalizeTitle] there. *)
Theorem C6_normalize_title_of_a_string (ucd : Raw.UCD) :
  (forall s t,
      Raw.title s = Raw.JString t ->
      Raw.NormalizeTitle ucd s
      = Raw.Returns
          (List.filter (fun c => negb (Raw.is_ascii_punctuation c))
             (Raw.lower ucd t)))
  /\ (forall s,
         (forall t, Raw.title s <> Raw.JString t) ->
         Raw.NormalizeTitle ucd s = Raw.AttributeError)
  /\ (forall id v, Raw.title (Raw.mkStory id (Some v)) = v)
  /\ (forall id, Raw.title (Raw.mkStory id None) = id)
  /\ (forall id,
         Raw.NormalizeTitle ucd (Raw.mkStory id (Some (Raw.JString [])))
         = Raw.Returns [])
  /\ (forall c,
         Raw.is_ascii_punctuation c = Raw.mem c Raw.punctuation
         /\ Raw.is_ascii_punctuation c && (128 <=? c)%N = false)
  /\ (forall s : Story,
         Raw.latin1_database ucd ->
         Raw.NormalizeTitle ucd (raw_of_story s)
         = Raw.Returns (Raw.code_points (NormalizeTitle s))).
Proof.
  split; [|split; [|split; [|split; [|split; [|split]]]]].
  - intros s t Ht. unfold Raw.NormalizeTitle. rewrite Ht.
    rewrite RawFacts.translate_delete_filter. reflexivity.
  - intros s Hs. unfold Raw.NormalizeTitle.
    destruct (Raw.title s) as [| | |t| |]; try reflexivity.
    destruct (Hs t eq_refl).
  - reflexivity.
  - reflexivity.
  - reflexivity.
  - intros c. split; [symmetry; apply RawFacts.raw_mem_punctuation|].
    unfold Raw.is_ascii_punctuation.
    destruct (N.leb_spec 128 c) as [Hbig|Hsmall]; [|apply andb_false_r].
    rewrite andb_true_r, !orb_false_iff, !andb_false_iff, !N.leb_gt. lia.
  - intros s Hl. unfold Raw.NormalizeTitle, raw_of_story, Raw.title,
      NormalizeTitle, title. simpl.
    destruct (story_title s) as [t|]; simpl;
      rewrite <- (RawFacts.normalize_code_points ucd) by exact Hl;
      reflexivity.
Qed.

(** A title with two runs of blanks, a tab and three punctuation marks
    that are not ASCII: only the hyphen is removed. And the story "cats!"
    of the samples, read as the server sends it. *)
Lemma C6_blanks_stay :
  Raw.NormalizeTitle MoreSamples.ucd
    (Raw.mkStory Raw.JNull (Some (Raw.JString MoreSamples.title_with_blanks)))
  = Raw.Returns
      [171; 233; 32; 116; 101; 32; 32; 32; 32; 9; 8212; 187; 32]%N
  /\ Raw.NormalizeTitle MoreSamples.ucd (raw_of_story Sample.B)
     = Raw.Returns (Raw.code_points "cats").
Proof.
  split.
  - rewrite (proj1 (C6_normalize_title_of_a_string MoreSamples.ucd)
               (Raw.mkStory Raw.JNull
                  (Some (Raw.JString MoreSamples.title_with_blanks)))
               MoreSamples.title_with_blanks eq_refl).
    vm_compute. reflexivity.
  - rewrite (proj2 (proj2 (proj2 (proj2 (proj2 (proj2
               (C6_normalize_title_of_a_string MoreSamples.ucd))))))
               Sample.B sample_latin1_database).
    vm_compute. reflexivity.
Defined.

(** A story whose title is [null], and a story without a title whose id
    is a number: [NormalizeTitle] raises. *)
Lemma C6_null_title_raises :
  Raw.story_title MoreSamples.null_title = Some Raw.JNull
  /\ Raw.NormalizeTitle MoreSamples.ucd MoreSamples.null_title
     = Raw.AttributeError
  /\ Raw.NormalizeTitle MoreSamples.ucd MoreSamples.number_id
     = Raw.AttributeError.
Proof. repeat split. Qed.

(** C7, as the program has it: on a database in which the ASCII letters
    are lowercased as usual and the code points of a lowercase mapping
    are their own lowercase, normalising twice is normalising once, for
    every string, and a string and its lowercase have the same normal
    form. The ASCII punctuation of a string does not show in its normal
    form if the string has no capital sigma (so for every ASCII string):
    "Hello, World!" and "hello world" have the same normal form. *)
Theorem C7_normalize_idempotent_on_every_string (ucd : Raw.UCD) :
  Raw.lowercase_database ucd ->
  (forall x, Raw.normalize ucd (Raw.normalize ucd x) = Raw.normalize ucd x)
  /\ (forall x, Raw.normalize ucd (Raw.lower ucd x) = Raw.normalize ucd x)
  /\ (forall x,
         ~ In Raw.CAPITAL_SIGMA x ->
         Raw.normalize ucd (Raw.translate_delete Raw.punctuation x)
         = Raw.normalize ucd x)
  /\ Raw.normalize ucd (Raw.code_points "Hello, World!")
     = Raw.normalize ucd (Raw.code_points "hello world")
  /\ Raw.normalize ucd (Raw.code_points "Hello, World!")
     = Raw.code_points "hello world".
Proof.
  intros Hdb.
  assert (Hhello : forall s,
            Forall (fun c => (c < 128)%N) (Raw.code_points s) ->
            Raw.normalize ucd (Raw.code_points s)
            = Raw.translate_delete Raw.punctuation
                (List.map (fun c => if ((65 <=? c) && (c <=? 90))%N
                                    then (c + 32)%N else c)
                   (Raw.code_points s))).
  { intros s Hs. unfold Raw.normalize.
    rewrite (RawFacts.lower_ascii ucd Hdb) by exact Hs. reflexivity. }
  split; [apply RawFacts.raw_normalize_idem, Hdb|].
  split; [apply RawFacts.raw_normalize_lower, Hdb|].
  split; [apply RawFacts.normalize_without_punctuation, Hdb|].
  split.
  - rewrite !Hhello; [reflexivity| |];
      apply Forall_forall; intros c Hc; apply list_elem_of_In in Hc;
      vm_compute in Hc; intuition (subst; reflexivity).
  - rewrite Hhello; [reflexivity|].
    apply Forall_forall; intros c Hc; apply list_elem_of_In in Hc;
      vm_compute in Hc; intuition (subst; reflexivity).
Qed.

(** On the sample database: the normal form of capital alpha, capital
    sigma, "!", capital beta is a normal form. *)
Lemma C7_sample_idempotent :
  Raw.normalize MoreSamples.ucd
    (Raw.normalize MoreSamples.ucd MoreSamples.alpha_sigma_bang_beta)
  = Raw.normalize MoreSamples.ucd MoreSamples.alpha_sigma_bang_beta.
Proof.
  apply (proj1 (C7_normalize_idempotent_on_every_string MoreSamples.ucd
                  sample_lowercase_database)).
Defined.

(** Capital alpha, capital sigma, "!", capital beta: the sigma stands at
    the end of a word and becomes a final sigma. Without the "!" it
    stands inside a word and becomes a small sigma. The two strings
    differ by a punctuation character only, and their normal forms
    differ. *)
Lemma C7_punctuation_shows_after_sigma :
  Raw.translate_delete Raw.punctuation MoreSamples.alpha_sigma_bang_beta
  = [913; 931; 914]%N
  /\ Raw.normalize MoreSamples.ucd MoreSamples.alpha_sigma_bang_beta
     = [945; 962; 946]%N
  /\ Raw.normalize MoreSamples.ucd [913; 931; 914]%N = [945; 963; 946]%N
  /\ Raw.normalize MoreSamples.ucd
       (Raw.translate_delete Raw.punctuation
          MoreSamples.alpha_sigma_bang_beta)
     <> Raw.normalize MoreSamples.ucd MoreSamples.alpha_sigma_bang_beta.
Proof.
  split; [reflexivity|]. split; [reflexivity|]. split; [reflexivity|].
  vm_compute. discriminate.
Qed.

(** C10, where the claim fails. The timestamp entry "0", a string, is
    true for Python: the story is as old as the epoch and the age rule
    purges it. And a story without a timestamp entry is purged by the age
    rule when the clock is set back by more than the days of the cutoff
    between the start of the run and the story. *)
Lemma C10_string_zero_or_clock_set_back :
  (story_timestamp Sample.S0 = PyStr "0"
   /\ compute_cutoff Sample.env (Sample.only_age 7) Sample.w0
      = (mkWorld 1 0 [],
         Done (Some (Sample.T0 - 7 * MICROSECONDS_PER_DAY)))
   /\ body Sample.env (Sample.only_age 7)
        (Some (Sample.T0 - 7 * MICROSECONDS_PER_DAY)) ∅ 0 Sample.S0 []
        Sample.no_seen (mkWorld 1 0 [])
      = (mkWorld 1 0 [],
         Done (Purge AgeCutoff, [Sample.S0], Sample.no_seen)))
  /\ (story_timestamp Sample.U0 = PyNone
      /\ compute_cutoff MoreSamples.env_clock_back (Sample.only_age 7)
           Sample.w0
         = (mkWorld 1 0 [],
            Done (Some (Sample.T0 - 7 * MICROSECONDS_PER_DAY)))
      /\ body MoreSamples.env_clock_back (Sample.only_age 7)
           (Some (Sample.T0 - 7 * MICROSECONDS_PER_DAY)) ∅ 0 Sample.U0 []
           Sample.no_seen (mkWorld 1 0 [])
         = (mkWorld 2 0 [],
            Done (Purge AgeCutoff, [Sample.U0], Sample.no_seen))).
Proof.
  split; (split; [reflexivity|]; split; vm_compute; reflexivity).
Qed.


(** ** Normal forms *)

(** X3: what a normal form looks like. No code point of it is ASCII
    punctuation or an ASCII capital letter, every code point of it is its
    own lowercase, and lowercasing it changes nothing. It is not longer
    than the lowercased title; it can be longer than the title, since the
    lowercase of one code point can be several. *)
Theorem X3_normal_form_of_a_title (ucd : Raw.UCD) (s : Raw.str) :
  Raw.lowercase_database ucd ->
  Forall (fun c => Raw.is_ascii_punctuation c = false
                   /\ Raw.fixed_by_lower ucd c
                   /\ ~ (65 <= c <= 90)%N)
    (Raw.normalize ucd s)
  /\ (length (Raw.normalize ucd s) <= length (Raw.lower ucd s))%nat
  /\ Raw.lower ucd (Raw.normalize ucd s) = Raw.normalize ucd s.
Proof.
  intros Hdb. split; [|split].
  - apply Forall_forall. intros c Hc. apply list_elem_of_In in Hc.
    assert (Hfix : Raw.fixed_by_lower ucd c).
    { pose proof (RawFacts.normalize_is_fixed ucd Hdb s) as Hall.
      rewrite List.Forall_forall in Hall. apply Hall, Hc. }
    split; [|split; [exact Hfix|]].
    + unfold Raw.normalize in Hc.
      rewrite RawFacts.translate_delete_filter in Hc.
      apply List.filter_In in Hc. destruct Hc as [_ Hc].
      destruct (Raw.is_ascii_punctuation c); [discriminate|reflexivity].
    + intros Hcap. destruct Hdb as (Hascii & _).
      destruct Hfix as [_ Hfix]. rewrite Hascii in Hfix by lia.
      destruct (N.leb_spec 65 c); [|lia].
      destruct (N.leb_spec c 90); [|lia].
      simpl in Hfix. injection Hfix. lia.
  - unfold Raw.normalize. rewrite RawFacts.translate_delete_filter.
    apply List.filter_length_le.
  - apply (RawFacts.lower_from_fixed ucd).
    apply (RawFacts.normalize_is_fixed ucd Hdb).
Qed.

(** Capital I with a dot above, U+0130: its lowercase is "i" and a
    combining dot, two code points for one. *)
Lemma X3_longer_than_the_title :
  Forall (fun c => Raw.is_ascii_punctuation c = false
                   /\ Raw.fixed_by_lower MoreSamples.ucd c
                   /\ ~ (65 <= c <= 90)%N)
    (Raw.normalize MoreSamples.ucd [304%N])
  /\ Raw.normalize MoreSamples.ucd [304%N] = [105; 775]%N
  /\ (length [304%N] < length (Raw.normalize MoreSamples.ucd [304%N]))%nat.
Proof.
  split; [|split].
  - apply (X3_normal_form_of_a_title MoreSamples.ucd [304%N]
             sample_lowercase_database).
  - reflexivity.
  - vm_compute. lia.
Defined.
